(** * winpcapy: a shallow embedding of [winpcapy/winpcapy.py]

    The module wraps the native packet-capture library behind the
    Python classes [WinPcapDevices] (the device list) and [WinPcap] (one
    capture session); the helpers of [WinPcapUtils] are clients of the
    two.  The embedding keeps the Python control flow: every method becomes a function that
    takes the object and the world and gives back a result (a value or a
    raised exception), the updated object and the updated world. *)

From Stdlib Require Import ZArith NArith List String Ascii Bool Lia.
From Stdlib Require Import Init.Byte.
Import ListNotations.
Open Scope string_scope.
Open Scope list_scope.
Open Scope Z_scope.

(** ** Python results *)

Definition newline : string := String (ascii_of_nat 10) EmptyString.

Inductive exn : Type :=
| AssertionError
| PcapFindDevicesException (msg : string)
| TypeError
| UnicodeDecodeError
| UnicodeEncodeError
| UserException.

Inductive result (A : Type) : Type :=
| Return (a : A)
| Raise (e : exn).
Arguments Return {A} a.
Arguments Raise {A} e.

(** ** The native side *)

(** Modelled from the spec: the ctypes declarations of
    [winpcapy_types] are not part of the sources.  A device record has
    the two strings the code reads; its [next] link is the tail of the
    list that stands for the native linked list, so a pointer into the
    list is the suffix that starts there and the NULL pointer is [[]]. *)
Record pcap_if : Type := mk_pcap_if {
  name : string;
  description : string
}.

(** Modelled from the spec: the packet header of [winpcapy_types].
    [caplen] is the number of bytes present in the capture buffer and
    [len] the length of the frame on the wire. *)
Record pcap_pkthdr : Type := mk_pkthdr {
  tv_sec : Z;
  tv_usec : Z;
  caplen : Z;
  len : Z
}.

(** What the interface does next while a receive loop reads from it: a
    frame arrives (the library writes the captured bytes at [buf_addr]
    and hands out the header), another thread asks the loop to stop, or
    the device fails. *)
Inductive wire_event : Type :=
| Frame (hdr : pcap_pkthdr) (buf_addr : Z) (captured : list byte)
| StopRequest
| DeviceError.

(** The callables a caller can pass to [run], told apart the way
    [inspect.isfunction] and [inspect.ismethod] tell them apart.  The
    body of a callable is what it does with one packet: it may call
    [stop()] on the session it is given and it may raise. *)
Record cb_action : Type := mk_action {
  calls_stop : bool;
  raises : bool
}.

Definition user_fn : Type := pcap_pkthdr -> list byte -> cb_action.

Inductive py_object : Type :=
| PyNone
| PyFunction (f : user_fn)
| PyMethod (f : user_fn)
| PyCallable (f : user_fn).

Definition isfunction (o : py_object) : bool :=
  match o with PyFunction _ => true | _ => false end.

Definition ismethod (o : py_object) : bool :=
  match o with PyMethod _ => true | _ => false end.

(** Everything observable that happens outside the Python objects. *)
Inductive event : Type :=
| Native_findalldevs
| Native_freealldevs
| Native_open_live (device : string) (snaplen promisc to_ms : Z)
| Native_close (h : Z)
| Native_breakloop (h : option Z)
| Native_loop (h : Z) (cnt : Z)
| Native_sendpacket (h : Z) (buf : list byte) (size : Z)
| User_callback (param : Z) (hdr : pcap_pkthdr) (pkt_data : list byte)
| Ignored_exception (e : exn).

(** How the native library answers.  The failure signals are the ones
    of the interface table: a status and an error text for the
    enumeration, a NULL handle (address 0) and an error text for
    open-live, a negative status for send-packet. *)
Record native_lib : Type := mk_lib {
  findalldevs : Z * list pcap_if * string;
  open_live : string -> Z -> Z -> Z -> Z * string;
  sendpacket : Z -> list byte -> Z -> Z
}.

Record World : Type := mk_world {
  mem : Z -> byte;
  break_flag : bool;
  open_handles : list Z;
  devlist_allocated : bool;
  log : list event
}.

Definition emit (e : event) (w : World) : World :=
  mk_world (mem w) (break_flag w) (open_handles w) (devlist_allocated w)
           (log w ++ [e])%list.

Definition set_break (b : bool) (w : World) : World :=
  mk_world (mem w) b (open_handles w) (devlist_allocated w) (log w).

Definition set_handles (hs : list Z) (w : World) : World :=
  mk_world (mem w) (break_flag w) hs (devlist_allocated w) (log w).

Definition set_devlist (b : bool) (w : World) : World :=
  mk_world (mem w) (break_flag w) (open_handles w) b (log w).

Definition set_mem (m : Z -> byte) (w : World) : World :=
  mk_world m (break_flag w) (open_handles w) (devlist_allocated w) (log w).

Definition world0 : World :=
  mk_world (fun _ => x00) false [] false [].

(** ** Python text and bytes

    A C string and a Python [bytes] object are a [string], one
    character per byte.  A Python [str] is the list of its code
    points. *)

Definition text : Type := list N.

(** The [str] written as an ASCII literal. *)
Definition text_of (s : string) : text :=
  map N_of_ascii (list_ascii_of_string s).

Fixpoint text_eqb (a b : text) : bool :=
  match a, b with
  | [], [] => true
  | x :: a', y :: b' => (N.eqb x y && text_eqb a' b')%bool
  | _, _ => false
  end.

(** [bytes.decode('utf-8')] and [str.encode('utf-8')], both strict: a
    byte sequence that is not well-formed UTF-8 (a stray or missing
    continuation byte, an overlong form, a surrogate, a value above
    U+10FFFF) does not decode, and a surrogate does not encode. *)
Module Utf8.
Local Open Scope N_scope.

Definition continuation (n : N) : bool := (128 <=? n) && (n <=? 191).

Definition second_of_three (n0 n1 : N) : bool :=
  if n0 =? 224 then (160 <=? n1) && (n1 <=? 191)
  else if n0 =? 237 then (128 <=? n1) && (n1 <=? 159)
  else continuation n1.

Definition second_of_four (n0 n1 : N) : bool :=
  if n0 =? 240 then (144 <=? n1) && (n1 <=? 191)
  else if n0 =? 244 then (128 <=? n1) && (n1 <=? 143)
  else continuation n1.

Fixpoint decode (s : string) : option text :=
  match s with
  | EmptyString => Some []
  | String c0 s1 =>
      let n0 := N_of_ascii c0 in
      if n0 <? 128 then option_map (cons n0) (decode s1)
      else if (194 <=? n0) && (n0 <=? 223) then
        match s1 with
        | String c1 s2 =>
            let n1 := N_of_ascii c1 in
            if continuation n1
            then option_map (cons ((n0 - 192) * 64 + (n1 - 128))) (decode s2)
            else None
        | EmptyString => None
        end
      else if (224 <=? n0) && (n0 <=? 239) then
        match s1 with
        | String c1 (String c2 s3) =>
            let n1 := N_of_ascii c1 in
            let n2 := N_of_ascii c2 in
            if second_of_three n0 n1 && continuation n2
            then option_map
                   (cons ((n0 - 224) * 4096 + (n1 - 128) * 64 + (n2 - 128)))
                   (decode s3)
            else None
        | _ => None
        end
      else if (240 <=? n0) && (n0 <=? 244) then
        match s1 with
        | String c1 (String c2 (String c3 s4)) =>
            let n1 := N_of_ascii c1 in
            let n2 := N_of_ascii c2 in
            let n3 := N_of_ascii c3 in
            if second_of_four n0 n1 && continuation n2 && continuation n3
            then option_map
                   (cons ((n0 - 240) * 262144 + (n1 - 128) * 4096
                          + (n2 - 128) * 64 + (n3 - 128)))
                   (decode s4)
            else None
        | _ => None
        end
      else None
  end.

Definition encode_char (c : N) : option string :=
  if c <? 128 then Some (String (ascii_of_N c) EmptyString)
  else if c <? 2048 then
    Some (String (ascii_of_N (192 + c / 64))
         (String (ascii_of_N (128 + c mod 64)) EmptyString))
  else if c <? 65536 then
    if (55296 <=? c) && (c <=? 57343) then None
    else
      Some (String (ascii_of_N (224 + c / 4096))
           (String (ascii_of_N (128 + (c / 64) mod 64))
           (String (ascii_of_N (128 + c mod 64)) EmptyString)))
  else if c <? 1114112 then
    Some (String (ascii_of_N (240 + c / 262144))
         (String (ascii_of_N (128 + (c / 4096) mod 64))
         (String (ascii_of_N (128 + (c / 64) mod 64))
         (String (ascii_of_N (128 + c mod 64)) EmptyString))))
  else None.

Fixpoint encode (t : text) : option string :=
  match t with
  | [] => Some EmptyString
  | c :: rest =>
      match encode_char c, encode rest with
      | Some b, Some bs => Some (b ++ bs)%string
      | _, _ => None
      end
  end.

End Utf8.

(** What the interpreter shows for a [bytes] object. *)
Module PyBytes.

(** The [value] of a ctypes character buffer: the bytes before the
    first NUL. *)
Fixpoint value (buffer : string) : string :=
  match buffer with
  | EmptyString => EmptyString
  | String c rest =>
      if Ascii.eqb c zero then EmptyString else String c (value rest)
  end.

Fixpoint contains (c : ascii) (b : string) : bool :=
  match b with
  | EmptyString => false
  | String d rest => (Ascii.eqb c d || contains c rest)%bool
  end.

Definition hex_digit (n : N) : ascii :=
  if (n <? 10)%N then ascii_of_N (48 + n) else ascii_of_N (87 + n).

(** One byte inside the quotes of [repr]. *)
Definition escape (quote c : ascii) : string :=
  let n := N_of_ascii c in
  if (Ascii.eqb c quote || Ascii.eqb c "\")%bool then String "\" (String c "")
  else if (n =? 9)%N then "\t"
  else if (n =? 10)%N then "\n"
  else if (n =? 13)%N then "\r"
  else if ((n <? 32) || (127 <=? n))%N%bool then
    String "\" (String "x" (String (hex_digit (n / 16))
                           (String (hex_digit (n mod 16)) "")))
  else String c "".

Fixpoint escape_all (quote : ascii) (b : string) : string :=
  match b with
  | EmptyString => EmptyString
  | String c rest => (escape quote c ++ escape_all quote rest)%string
  end.

Definition double_quote : ascii := ascii_of_N 34.

(** [repr(b)], which is also [str(b)] and what ["%s" % b] inserts. *)
Definition repr (b : string) : string :=
  let quote : ascii :=
    if (contains "'" b && negb (contains double_quote b))%bool
    then double_quote
    else "'"%char in
  ("b" ++ String quote (escape_all quote b) ++ String quote "")%string.

End PyBytes.

(** ** The [fnmatch] module of the Python library

    [fnmatch.fnmatch(name, pat)] normalises both arguments with
    [os.path.normcase] and matches the shell pattern character by
    character: [*] is any run of characters, [?] any one character,
    [[seq]] one character of [seq], [[!seq]] one character not in
    [seq]; a [[] without a closing [\]] is an ordinary character. *)
Module Fnmatch.
Local Open Scope N_scope.

(** On a POSIX host [os.path.normcase] changes nothing.  On a Windows
    host it turns every slash into a backslash and lowercases the
    result; the lowercase function belongs to the interpreter and its
    case tables, so the platform carries it. *)
Inductive platform : Type :=
| Posix
| Windows (lower : text -> text).

Definition star : N := 42.
Definition question : N := 63.
Definition bracket : N := 91.
Definition closing : N := 93.
Definition bang : N := 33.
Definition dash : N := 45.
Definition slash : N := 47.
Definition backslash : N := 92.

Definition unslash (c : N) : N := if c =? slash then backslash else c.

Definition normcase (os : platform) (s : text) : text :=
  match os with
  | Posix => s
  | Windows lower => lower (map unslash s)
  end.

(** The lowercase of an ASCII character; every lowercase function
    agrees with it on ASCII text. *)
Definition lower_ascii (c : N) : N :=
  if (65 <=? c) && (c <=? 90) then c + 32 else c.

Inductive class_item : Type :=
| One (c : N)
| Span (lo hi : N).

Inductive token : Type :=
| Star
| Quest
| Class (negated : bool) (items : list class_item)
| Lit (c : N).

(** The text up to the next [\]] and the text after it. *)
Fixpoint until_bracket (p : text) : option (text * text) :=
  match p with
  | [] => None
  | c :: q =>
      if c =? closing then Some ([], q)
      else match until_bracket q with
           | Some (body, rest) => Some (c :: body, rest)
           | None => None
           end
  end.

(** [p] is the pattern after a [[]: an optional [!], an optional [\]]
    that counts as a member, then the members up to the closing [\]]. *)
Definition scan_class (p : text) : option (bool * text * text) :=
  let '(neg, p1) :=
    match p with
    | c :: q => if c =? bang then (true, q) else (false, p)
    | [] => (false, p)
    end in
  let '(first, p2) :=
    match p1 with
    | c :: q => if c =? closing then ([c], q) else ([], p1)
    | [] => ([], p1)
    end in
  match until_bracket p2 with
  | Some (body, rest) => Some (neg, (first ++ body)%list, rest)
  | None => None
  end.

Fixpoint class_items (stuff : text) : list class_item :=
  match stuff with
  | [] => []
  | lo :: rest =>
      match rest with
      | d :: hi :: rest' =>
          if d =? dash then Span lo hi :: class_items rest'
          else One lo :: class_items rest
      | _ => One lo :: class_items rest
      end
  end.

(** The pattern is read left to right; [fuel] bounds the number of
    tokens, and the length of the pattern is always enough. *)
Fixpoint tokens (fuel : nat) (p : text) : list token :=
  match fuel with
  | O => []
  | S fuel' =>
      match p with
      | [] => []
      | c :: q =>
          if c =? star then Star :: tokens fuel' q
          else if c =? question then Quest :: tokens fuel' q
          else if c =? bracket then
            match scan_class q with
            | Some (neg, stuff, rest) =>
                Class neg (class_items stuff) :: tokens fuel' rest
            | None => Lit c :: tokens fuel' q
            end
          else Lit c :: tokens fuel' q
      end
  end.

Definition item_has (c : N) (i : class_item) : bool :=
  match i with
  | One d => c =? d
  | Span lo hi => (lo <=? c) && (c <=? hi)
  end.

Definition class_has (negated : bool) (items : list class_item) (c : N)
  : bool :=
  xorb negated (existsb (item_has c) items).

Fixpoint match_tokens (ts : list token) (s : text) : bool :=
  match ts with
  | [] => match s with [] => true | _ => false end
  | Star :: ts' =>
      (fix star (s : text) : bool :=
         (match_tokens ts' s
          || match s with [] => false | _ :: s' => star s' end)%bool) s
  | Quest :: ts' =>
      match s with [] => false | _ :: s' => match_tokens ts' s' end
  | Class neg items :: ts' =>
      match s with
      | [] => false
      | c :: s' => (class_has neg items c && match_tokens ts' s')%bool
      end
  | Lit d :: ts' =>
      match s with
      | [] => false
      | c :: s' => ((c =? d) && match_tokens ts' s')%bool
      end
  end.

Definition fnmatchcase (nm pat : text) : bool :=
  match_tokens (tokens (List.length pat) pat) nm.

Definition fnmatch (os : platform) (nm pat : text) : bool :=
  fnmatchcase (normcase os nm) (normcase os pat).

End Fnmatch.

(** ** [class WinPcapDevices] *)

Module WinPcapDevices.

(** [_all_devices] is [None] or the ctypes pointer to the head of the
    native list. *)
Record t : Type := mk {
  _all_devices : option (list pcap_if)
}.

Definition __init__ : t := mk None.

Definition __enter__ (lib : native_lib) (self : t) (w : World)
  : result unit * t * World :=
  match _all_devices self with
  | Some _ => (Raise AssertionError, self, w)
  | None =>
      let '(status, all_devices, err_buffer) := findalldevs lib in
      let w1 := emit Native_findalldevs w in
      if status =? -1 then
        (Raise (PcapFindDevicesException
                  ("Error in WinPcapDevices: "
                   ++ PyBytes.repr (PyBytes.value err_buffer)
                   ++ newline)%string),
         self, w1)
      else
        (Return tt, mk (Some all_devices), set_devlist true w1)
  end.

Definition __exit__ (self : t) (w : World) : result unit * t * World :=
  match _all_devices self with
  | Some _ => (Return tt, self, set_devlist false (emit Native_freealldevs w))
  | None => (Return tt, self, w)
  end.

(** The generator run to its end: the records it yields, in order. *)
Fixpoint follow_links (pcap_interface : list pcap_if) : list pcap_if :=
  match pcap_interface with
  | [] => []
  | contents :: next => contents :: follow_links next
  end.

Definition pcap_interface_iterator (self : t) : result (list pcap_if) :=
  match _all_devices self with
  | None =>
      Raise (PcapFindDevicesException
               "WinPcapDevices guard not called, use 'with statement'")
  | Some pcap_interface => Return (follow_links pcap_interface)
  end.

(** A Python dict of [str] to [str]: insertion ordered, assignment to a
    present key replaces the value where the key already is. *)
Definition dict : Type := list (text * text).

Fixpoint dict_set (k v : text) (d : dict) : dict :=
  match d with
  | [] => [(k, v)]
  | (k', v') :: d' =>
      if text_eqb k' k then (k', v) :: d' else (k', v') :: dict_set k v d'
  end.

(** The body of the loop, device after device: both strings are
    decoded, and the first one that is not UTF-8 ends the loop with
    [UnicodeDecodeError]. *)
Fixpoint fill (res : dict) (devices : list pcap_if) : result dict :=
  match devices with
  | [] => Return res
  | device :: rest =>
      match Utf8.decode (description device), Utf8.decode (name device) with
      | Some v, Some k => fill (dict_set k v res) rest
      | _, _ => Raise UnicodeDecodeError
      end
  end.

Definition list_devices (lib : native_lib) (w : World) : result dict * World :=
  let '(entered, devices, w1) := __enter__ lib __init__ w in
  match entered with
  | Raise e => (Raise e, w1)
  | Return _ =>
      match pcap_interface_iterator devices with
      | Raise e =>
          let '(_, _, w2) := __exit__ devices w1 in (Raise e, w2)
      | Return yielded =>
          let res := fill [] yielded in
          let '(_, _, w2) := __exit__ devices w1 in (res, w2)
      end
  end.

Fixpoint first_item (os : Fnmatch.platform) (glob : text) (items : dict)
  : option text * option text :=
  match items with
  | [] => (None, None)
  | (nm, descr) :: rest =>
      if Fnmatch.fnmatch os descr glob then (Some nm, Some descr)
      else first_item os glob rest
  end.

Definition get_matching_device (os : Fnmatch.platform) (lib : native_lib)
  (glob : text) (w : World)
  : result (option text * option text) * World :=
  let '(listed, w1) := list_devices lib w in
  match listed with
  | Raise e => (Raise e, w1)
  | Return d => (Return (first_item os glob d), w1)
  end.

End WinPcapDevices.

(** ** Native calls

    Modelled from the spec: the native entry points of [winpcapy_types]
    are not part of the sources.  Each call is logged; open-live
    registers the handle it returns unless it is NULL, close releases
    it, breakloop raises the break flag of the handle it is given, and
    the receive loop delivers frames until the packet count is reached
    (a count of zero or less never is), the break flag is found raised,
    or the device fails. *)
Module Native.

Definition NULL : Z := 0.

Definition pcap_open_live (lib : native_lib) (device : string)
  (snaplen promisc to_ms : Z) (w : World) : Z * string * World :=
  let '(h, err) := open_live lib device snaplen promisc to_ms in
  let w1 := emit (Native_open_live device snaplen promisc to_ms) w in
  (h, err, if h =? NULL then w1 else set_handles (h :: open_handles w1) w1).

Definition pcap_close (h : Z) (w : World) : World :=
  let w1 := emit (Native_close h) w in
  set_handles (remove Z.eq_dec h (open_handles w1)) w1.

Definition pcap_breakloop (h : option Z) (w : World) : World :=
  let w1 := emit (Native_breakloop h) w in
  match h with
  | Some _ => set_break true w1
  | None => w1
  end.

Definition pcap_sendpacket (lib : native_lib) (h : Z) (buf : list byte)
  (size : Z) (w : World) : Z * World :=
  (sendpacket lib h buf size, emit (Native_sendpacket h buf size) w).

(** The capture buffer: [store] is the library writing the captured
    bytes, [string_at] is [ctypes.string_at], a copy of [n] bytes read
    from an address. *)
Definition store (m : Z -> byte) (addr : Z) (bytes : list byte) : Z -> byte :=
  fun a =>
    if (addr <=? a) && (a <? addr + Z.of_nat (List.length bytes))
    then nth (Z.to_nat (a - addr)) bytes x00
    else m a.

Definition string_at (m : Z -> byte) (ptr : Z) (n : Z) : list byte :=
  map (fun i => m (ptr + Z.of_nat i)) (seq 0 (Z.to_nat n)).

(** The result is the status the call returns, or [None] when the
    events on the wire are used up and the call is still waiting. *)
Fixpoint pcap_loop (h : Z) (callback : Z -> pcap_pkthdr -> Z -> World -> World)
  (cnt delivered : Z) (wire : list wire_event) (w : World)
  : option Z * list wire_event * World :=
  if (0 <? cnt) && (cnt <=? delivered) then (Some 0, wire, w)
  else if break_flag w then (Some (-2), wire, set_break false w)
  else
    match wire with
    | [] => (None, wire, w)
    | Frame hdr addr captured :: wire' =>
        let w1 := set_mem (store (mem w) addr captured) w in
        let w2 := callback NULL hdr addr w1 in
        pcap_loop h callback cnt (delivered + 1) wire' w2
    | StopRequest :: wire' =>
        pcap_loop h callback cnt delivered wire' (pcap_breakloop (Some h) w)
    | DeviceError :: wire' => (Some (-1), wire', w)
    end.

End Native.

(** ** [class WinPcap] *)

Module WinPcap.

(** [_handle] is [None] or the ctypes pointer [pcap_open_live]
    returned, kept as its address; a NULL pointer is a pointer object,
    not [None]. *)
Record t : Type := mk {
  _handle : option Z;
  _name : string;
  _snap_length : Z;
  _promiscuous : Z;
  _timeout : Z;
  _err_buffer : string;
  _callback : py_object
}.

Definition __init__ (device_name : string) (snap_length promiscuous timeout : Z)
  : t :=
  mk None device_name snap_length promiscuous timeout "" PyNone.

Definition new (device_name : string) : t :=
  __init__ device_name 65536 1 1000.

Definition with_handle (self : t) (h : Z) (err : string) : t :=
  mk (Some h) (_name self) (_snap_length self) (_promiscuous self)
     (_timeout self) err (_callback self).

Definition with_callback (self : t) (callback : py_object) : t :=
  mk (_handle self) (_name self) (_snap_length self) (_promiscuous self)
     (_timeout self) (_err_buffer self) callback.

Definition __enter__ (lib : native_lib) (self : t) (w : World)
  : result unit * t * World :=
  match _handle self with
  | Some _ => (Raise AssertionError, self, w)
  | None =>
      let '(h, err, w1) :=
        Native.pcap_open_live lib (_name self) (_snap_length self)
                              (_promiscuous self) (_timeout self) w in
      (Return tt, with_handle self h err, w1)
  end.

Definition __exit__ (self : t) (w : World) : result unit * t * World :=
  match _handle self with
  | Some h => (Return tt, self, Native.pcap_close h w)
  | None => (Return tt, self, w)
  end.

Definition stop (self : t) (w : World) : result unit * t * World :=
  (Return tt, self, Native.pcap_breakloop (_handle self) w).

(** Calling the object stored in [_callback] with
    [(self, param, header, pkt_data)]. *)
Definition call (o : py_object) (self : t) (param : Z) (header : pcap_pkthdr)
  (pkt_data : list byte) (w : World) : result unit * World :=
  match o with
  | PyNone => (Raise TypeError, w)
  | PyFunction f | PyMethod f | PyCallable f =>
      let w1 := emit (User_callback param header pkt_data) w in
      let a := f header pkt_data in
      let w2 := if calls_stop a then snd (stop self w1) else w1 in
      if raises a then (Raise UserException, w2) else (Return tt, w2)
  end.

Definition packet_handler (self : t) (param : Z) (header : pcap_pkthdr)
  (pkt_pointer : Z) (w : World) : result unit * World :=
  if negb (isfunction (_callback self) || ismethod (_callback self)) then
    (Raise AssertionError, w)
  else
    let pkt_data := Native.string_at (mem w) pkt_pointer (len header) in
    call (_callback self) self param header pkt_data w.

(** [HANDLER_SIGNATURE(self.packet_handler)]: the ctypes thunk the
    native loop calls.  An exception that leaves the Python function is
    reported on the error stream and dropped; the native caller goes
    on. *)
Definition _callback_wrapper (self : t) (param : Z) (header : pcap_pkthdr)
  (pkt_pointer : Z) (w : World) : World :=
  let '(r, w1) := packet_handler self param header pkt_pointer w in
  match r with
  | Raise e => emit (Ignored_exception e) w1
  | Return _ => w1
  end.

(** The outcome is [None] while the call is still inside the native
    loop. *)
Definition run (self : t) (callback : py_object) (limit : Z)
  (wire : list wire_event) (w : World)
  : option (result unit) * t * list wire_event * World :=
  match _handle self with
  | None => (Some (Raise AssertionError), self, wire, w)
  | Some h =>
      let self1 := with_callback self callback in
      let w1 := emit (Native_loop h limit) w in
      let '(status, wire', w2) :=
        Native.pcap_loop h (_callback_wrapper self1) limit 0 wire w1 in
      (match status with Some _ => Some (Return tt) | None => None end,
       self1, wire', w2)
  end.

Definition send (lib : native_lib) (self : t) (buf : list byte) (w : World)
  : result unit * t * World :=
  match _handle self with
  | None => (Raise AssertionError, self, w)
  | Some h =>
      let buf_length := Z.of_nat (List.length buf) in
      let buf_send := buf in
      let '(_, w1) := Native.pcap_sendpacket lib h buf_send buf_length w in
      (Return tt, self, w1)
  end.

(** *** A client of one session instance *)

Inductive op : Type :=
| Enter
| Exit
| Stop
| Send (buf : list byte)
| Run (callback : py_object) (limit : Z) (wire : list wire_event).

Definition step (lib : native_lib) (o : op) (self : t) (w : World)
  : option (result unit) * t * World :=
  match o with
  | Enter => let '(r, s, w1) := __enter__ lib self w in (Some r, s, w1)
  | Exit => let '(r, s, w1) := __exit__ self w in (Some r, s, w1)
  | Stop => let '(r, s, w1) := stop self w in (Some r, s, w1)
  | Send buf => let '(r, s, w1) := send lib self buf w in (Some r, s, w1)
  | Run callback limit wire =>
      let '(r, s, _, w1) := run self callback limit wire w in (r, s, w1)
  end.

Record moment : Type := mk_moment {
  did : op;
  outcome : option (result unit);
  session : t;
  world : World
}.

Fixpoint exec (lib : native_lib) (ops : list op) (self : t) (w : World)
  : list moment :=
  match ops with
  | [] => []
  | o :: rest =>
      let '(r, s, w1) := step lib o self w in
      mk_moment o r s w1 :: exec lib rest s w1
  end.

Definition opened (m : moment) : bool :=
  match did m, outcome m with
  | Enter, Some (Return _) => true
  | _, _ => false
  end.

(** The lifecycle as an observer sees it: the session is open while it
    holds a handle that the native library has not released. *)
Inductive phase : Type := Closed | Open.

Definition phase_of (self : t) (w : World) : phase :=
  match _handle self with
  | None => Closed
  | Some h => if existsb (Z.eqb h) (open_handles w) then Open else Closed
  end.

Inductive stage : Type := Fresh | Opened | Finished.

Definition advance (st : stage) (p : phase) : option stage :=
  match st, p with
  | Fresh, Closed => Some Fresh
  | Fresh, Open => Some Opened
  | Opened, Open => Some Opened
  | Opened, Closed => Some Finished
  | Finished, Closed => Some Finished
  | Finished, Open => None
  end.

Fixpoint follows (st : stage) (ps : list phase) : bool :=
  match ps with
  | [] => true
  | p :: rest =>
      match advance st p with
      | Some st' => follows st' rest
      | None => false
      end
  end.

Definition phases (ms : list moment) : list phase :=
  map (fun m => phase_of (session m) (world m)) ms.

Definition callbacks (l : list event) : list (pcap_pkthdr * list byte) :=
  flat_map (fun e => match e with
                     | User_callback _ hdr data => [(hdr, data)]
                     | _ => []
                     end) l.

End WinPcap.

(** ** Concrete inputs used by the examples below *)

Module Examples.

Definition three_devices : list pcap_if :=
  [mk_pcap_if "eth0" "Intel Ethernet";
   mk_pcap_if "wlan0" "Wi-Fi 6";
   mk_pcap_if "lo" "Loopback"].

(** The same interface name reported twice. *)
Definition repeated_name : list pcap_if :=
  [mk_pcap_if "eth0" "Intel Ethernet";
   mk_pcap_if "wlan0" "Wi-Fi 6";
   mk_pcap_if "eth0" "Loopback"].

(** A device whose description is the single byte E9, which is not
    UTF-8. *)
Definition undecodable : list pcap_if :=
  [mk_pcap_if "eth0" (String (ascii_of_N 233) EmptyString)].

(** A library whose open-live gives handle 7 and whose send-packet
    succeeds. *)
Definition good_lib (devs : list pcap_if) : native_lib :=
  mk_lib (0, devs, "") (fun _ _ _ _ => (7, "")) (fun _ _ _ => 0).

(** A library whose open-live fails and leaves a diagnostic. *)
Definition refusing_lib : native_lib :=
  mk_lib (0, three_devices, "")
         (fun _ _ _ _ => (Native.NULL, "permission denied"))
         (fun _ _ _ => 0).

(** A library whose send-packet reports an error. *)
Definition failing_send_lib : native_lib :=
  mk_lib (0, three_devices, "") (fun _ _ _ _ => (7, "")) (fun _ _ _ => -1).

Definition quiet : user_fn := fun _ _ => mk_action false false.

(** A frame of 4 bytes on the wire of which 2 were captured. *)
Definition truncated_hdr : pcap_pkthdr := mk_pkthdr 1 0 2 4.

(** Memory that holds [xaa] everywhere, as left by earlier traffic. *)
Definition stale_world : World :=
  mk_world (fun _ => xaa) false [] false [].

Definition hdr_of (n : Z) : pcap_pkthdr := mk_pkthdr n 0 1 1.

Definition five_frames : list wire_event :=
  [Frame (hdr_of 1) 100 [x01]; Frame (hdr_of 2) 100 [x02];
   Frame (hdr_of 3) 100 [x03]; Frame (hdr_of 4) 100 [x04];
   Frame (hdr_of 5) 100 [x05]].

End Examples.

(** ** Notions used to state the properties *)

Module Notions.
Import Native WinPcap.

(** The listing entry of a device: its name and its description as
    text, when both are UTF-8. *)
Definition decoded (d : pcap_if) : option (text * text) :=
  match Utf8.decode (name d), Utf8.decode (description d) with
  | Some k, Some v => Some (k, v)
  | _, _ => None
  end.

Definition decodable (d : pcap_if) : Prop := decoded d <> None.

(** The listing entries of all the devices, when every name and
    description is UTF-8. *)
Fixpoint decode_all (devs : list pcap_if) : option (list (text * text)) :=
  match devs with
  | [] => Some []
  | d :: rest =>
      match decoded d, decode_all rest with
      | Some e, Some es => Some (e :: es)
      | _, _ => None
      end
  end.

(** The description of the device matches the pattern. *)
Definition matches (os : Fnmatch.platform) (glob : text) (d : pcap_if)
  : bool :=
  match Utf8.decode (description d) with
  | Some v => Fnmatch.fnmatch os v glob
  | None => false
  end.

(** The find operation returns the first device, in directory order,
    whose description matches. *)
Definition finds_first_match (os : Fnmatch.platform) (devs : list pcap_if)
  (glob : text) : Prop :=
  forall lib w status err,
    findalldevs lib = (status, devs, err) ->
    status <> -1 ->
    forall pre d post,
      devs = pre ++ d :: post ->
      (forall x, In x pre -> matches os glob x = false) ->
      matches os glob d = true ->
      exists nm descr,
        decoded d = Some (nm, descr)
        /\ fst (WinPcapDevices.get_matching_device os lib glob w)
           = Return (Some nm, Some descr).

(** The find operation reports that nothing matches when no
    description does. *)
Definition reports_no_match (os : Fnmatch.platform) (devs : list pcap_if)
  (glob : text) : Prop :=
  forall lib w status err,
    findalldevs lib = (status, devs, err) ->
    status <> -1 ->
    (forall x, In x devs -> matches os glob x = false) ->
    fst (WinPcapDevices.get_matching_device os lib glob w)
    = Return (None, None).

(** The lowercase function of the platform does to ASCII text what
    every lowercase function does. *)
Definition folds_ascii (os : Fnmatch.platform) : Prop :=
  match os with
  | Fnmatch.Posix => True
  | Fnmatch.Windows lower =>
      forall s, Forall (fun c => (c < 128)%N) s ->
                lower s = map Fnmatch.lower_ascii s
  end.

(** A packet count that the C [int] parameter of the native loop
    holds as it is. *)
Definition fits_c_int (n : Z) : Prop := - 2147483648 <= n < 2147483648.

(** The native library no longer holds handle [h]. *)
Definition released (h : Z) (w : World) : Prop :=
  existsb (Z.eqb h) (open_handles w) = false.

(** An open attempt that the guard turned down. *)
Definition refused (m : moment) : Prop :=
  did m = Enter -> outcome m = Some (Raise AssertionError).

(** A frame as the wire delivers it: header, buffer address, captured
    bytes. *)
Definition frame : Type := pcap_pkthdr * Z * list byte.

Definition to_wire (frames : list frame) : list wire_event :=
  map (fun fr : frame => let '(hdr, addr, captured) := fr in
                         Frame hdr addr captured) frames.

(** What the callback is expected to see, frame after frame: the header
    and [len] bytes read at the buffer address once the frame is in
    memory. *)
Fixpoint deliveries (m : Z -> byte) (frames : list frame)
  : list (pcap_pkthdr * list byte) :=
  match frames with
  | [] => []
  | (hdr, addr, captured) :: rest =>
      let m' := store m addr captured in
      (hdr, string_at m' addr (len hdr)) :: deliveries m' rest
  end.

Definition accepted (cb : py_object) (f : user_fn) : Prop :=
  cb = PyFunction f \/ cb = PyMethod f.

Definition never_stops (f : user_fn) : Prop :=
  forall hdr data, calls_stop (f hdr data) = false.

End Notions.

(** ** [class WinPcapUtils] *)

Module WinPcapUtils.

(** [with WinPcap(device_name) as capture: body], the device name
    being given as [__init__] keeps it.  [__exit__] runs when
    the body is left, normally or by an exception, and returns [None],
    so an exception goes on to the caller; while the body is still
    inside the native loop nothing is left. *)
Definition with_capture (lib : native_lib) (device_name : string)
  (body : WinPcap.t -> list wire_event -> World
          -> option (result unit) * WinPcap.t * list wire_event * World)
  (wire : list wire_event) (w : World)
  : option (result unit) * list wire_event * World :=
  let '(entered, capture, w1) :=
    WinPcap.__enter__ lib (WinPcap.new device_name) w in
  match entered with
  | Raise e => (Some (Raise e), wire, w1)
  | Return _ =>
      let '(r, capture', unread, w2) := body capture wire w1 in
      match r with
      | None => (None, unread, w2)
      | Some r' =>
          let '(_, _, w3) := WinPcap.__exit__ capture' w2 in
          (Some r', unread, w3)
      end
  end.

(** [with WinPcap(device_name) as capture: body] for a device name
    that is a [str]: [__init__] encodes it before anything is opened,
    and the session is made from the encoded name. *)
Definition with_named_capture (lib : native_lib) (device_name : text)
  (body : WinPcap.t -> list wire_event -> World
          -> option (result unit) * WinPcap.t * list wire_event * World)
  (wire : list wire_event) (w : World)
  : option (result unit) * list wire_event * World :=
  match Utf8.encode device_name with
  | None => (Some (Raise UnicodeEncodeError), wire, w)
  | Some encoded => with_capture lib encoded body wire w
  end.

Definition capture_on (os : Fnmatch.platform) (lib : native_lib)
  (pattern : text) (callback : py_object) (wire : list wire_event)
  (w : World) : option (result unit) * list wire_event * World :=
  let '(found, w1) :=
    WinPcapDevices.get_matching_device os lib pattern w in
  match found with
  | Raise e => (Some (Raise e), wire, w1)
  | Return (device_name, desc) =>
      match device_name with
      | Some nm =>
          with_named_capture lib nm
            (fun capture wire w => WinPcap.run capture callback 0 wire w)
            wire w1
      | None => (Some (Return tt), wire, w1)
      end
  end.

Definition capture_on_device_name (lib : native_lib) (device_name : string)
  (callback : py_object) (wire : list wire_event) (w : World)
  : option (result unit) * list wire_event * World :=
  with_capture lib device_name
    (fun capture wire w => WinPcap.run capture callback 0 wire w) wire w.

Definition is_none (o : py_object) : bool :=
  match o with PyNone => true | _ => false end.

Definition send_packet (os : Fnmatch.platform) (lib : native_lib)
  (pattern : text) (buf : list byte) (callback : py_object) (limit : Z)
  (wire : list wire_event) (w : World)
  : option (result unit) * list wire_event * World :=
  let '(found, w1) :=
    WinPcapDevices.get_matching_device os lib pattern w in
  match found with
  | Raise e => (Some (Raise e), wire, w1)
  | Return (device_name, desc) =>
      match device_name with
      | Some nm =>
          with_named_capture lib nm
            (fun capture wire w =>
               let '(sent, capture1, w2) := WinPcap.send lib capture buf w in
               match sent with
               | Raise e => (Some (Raise e), capture1, wire, w2)
               | Return _ =>
                   if is_none callback
                   then (Some (Return tt), capture1, wire, w2)
                   else WinPcap.run capture1 callback limit wire w2
               end)
            wire w1
      | None => (Some (Return tt), wire, w1)
      end
  end.

End WinPcapUtils.

(** ** Further inputs and notions *)

Module Scenarios.

(** A library whose enumeration fails. *)
Definition blind_lib : native_lib :=
  mk_lib (-1, [], "no adapters") (fun _ _ _ _ => (7, "")) (fun _ _ _ => 0).

(** A callback that calls [stop()] on every packet. *)
Definition stopper : user_fn := fun _ _ => mk_action true false.

(** A callback that raises on every packet. *)
Definition thrower : user_fn := fun _ _ => mk_action false true.

Definition whole_hdr (n : Z) : pcap_pkthdr := mk_pkthdr n 0 2 2.

(** Two frames captured whole into the same buffer. *)
Definition two_whole : list (pcap_pkthdr * Z * list byte) :=
  [(whole_hdr 1, 100, [x01; x02]); (whole_hdr 2, 100, [x03; x04])].

End Scenarios.

Module Vocabulary.

(** [d.get(k)] on a dict. *)
Fixpoint lookup (k : text) (d : WinPcapDevices.dict) : option text :=
  match d with
  | [] => None
  | (k', v) :: d' => if text_eqb k' k then Some v else lookup k d'
  end.

(** The description of the last device of the list whose name is the
    text [k]. *)
Fixpoint last_description (k : text) (devs : list pcap_if) : option text :=
  match devs with
  | [] => None
  | d :: rest =>
      match last_description k rest with
      | Some v => Some v
      | None =>
          match Notions.decoded d with
          | Some (k', v) => if text_eqb k' k then Some v else None
          | None => None
          end
      end
  end.

(** The names of the devices as text, those that are UTF-8. *)
Fixpoint decoded_names (devs : list pcap_if) : list text :=
  match devs with
  | [] => []
  | d :: rest =>
      match Utf8.decode (name d) with
      | Some k => k :: decoded_names rest
      | None => decoded_names rest
      end
  end.

(** What a receive loop can add to the log. *)
Definition loop_event (e : event) : Prop :=
  match e with
  | User_callback _ _ _ | Ignored_exception _ | Native_breakloop _ => True
  | _ => False
  end.

Definition always_stops (f : user_fn) : Prop :=
  forall hdr data, calls_stop (f hdr data) = true.

(** A frame captured whole: the header's [len] is the number of bytes
    in the buffer. *)
Definition whole (fr : pcap_pkthdr * Z * list byte) : Prop :=
  len (fst (fst fr)) = Z.of_nat (List.length (snd fr)).

Definition captured_pair (fr : pcap_pkthdr * Z * list byte)
  : pcap_pkthdr * list byte :=
  (fst (fst fr), snd fr).

Definition count_stops (ops : list WinPcap.op) : nat :=
  List.length (filter (fun o => match o with WinPcap.Stop => true | _ => false end)
                      ops).

Definition is_enter (o : WinPcap.op) : bool :=
  match o with WinPcap.Enter => true | _ => false end.

(** The world after the last operation of a client. *)
Fixpoint final (ms : list WinPcap.moment) (w0 : World) : World :=
  match ms with
  | [] => w0
  | m :: rest => final rest (WinPcap.world m)
  end.

(** The answer the guard of [send] and [run] gives on a session without
    a handle; the other operations return normally. *)
Definition turned_down (m : WinPcap.moment) : Prop :=
  match WinPcap.did m with
  | WinPcap.Send _ | WinPcap.Run _ _ _ =>
      WinPcap.outcome m = Some (Raise AssertionError)
  | _ => WinPcap.outcome m = Some (Return tt)
  end.

End Vocabulary.

(** * Properties *)

(** ** Text *)

Module TextFacts.
Import Utf8.
Local Open Scope N_scope.

Lemma text_eqb_refl (a : text) : text_eqb a a = true.
Proof.
  induction a as [|x a IH]; simpl; [reflexivity|].
  now rewrite N.eqb_refl, IH.
Qed.

Lemma text_eqb_eq (a b : text) : text_eqb a b = true <-> a = b.
Proof.
  split; [|intros ->; apply text_eqb_refl].
  revert b. induction a as [|x a IH]; destruct b as [|y b]; simpl;
    try discriminate; [reflexivity|].
  intros H. apply andb_true_iff in H. destruct H as [Hx Hr].
  apply N.eqb_eq in Hx. subst y. f_equal. now apply IH.
Qed.

Lemma text_eqb_neq (a b : text) : text_eqb a b = false <-> a <> b.
Proof.
  split.
  - intros H E. apply text_eqb_eq in E. congruence.
  - intros H. destruct (text_eqb a b) eqn:E; [|reflexivity].
    apply text_eqb_eq in E. contradiction.
Qed.

Lemma continuation_range n : continuation n = true -> 128 <= n <= 191.
Proof.
  unfold continuation. intros H. apply andb_true_iff in H.
  destruct H as [H1 H2]. apply N.leb_le in H1, H2. lia.
Qed.

Lemma second_of_three_range n0 n1 :
  second_of_three n0 n1 = true ->
  128 <= n1 <= 191 /\ (n0 = 224 -> 160 <= n1) /\ (n0 = 237 -> n1 <= 159).
Proof.
  unfold second_of_three.
  destruct (N.eqb_spec n0 224) as [-> | H224].
  - intros H. apply andb_true_iff in H. destruct H as [H1 H2].
    apply N.leb_le in H1, H2. lia.
  - destruct (N.eqb_spec n0 237) as [-> | H237].
    + intros H. apply andb_true_iff in H. destruct H as [H1 H2].
      apply N.leb_le in H1, H2. lia.
    + intros H. apply continuation_range in H. lia.
Qed.

Lemma second_of_four_range n0 n1 :
  second_of_four n0 n1 = true ->
  128 <= n1 <= 191 /\ (n0 = 240 -> 144 <= n1) /\ (n0 = 244 -> n1 <= 143).
Proof.
  unfold second_of_four.
  destruct (N.eqb_spec n0 240) as [-> | H240].
  - intros H. apply andb_true_iff in H. destruct H as [H1 H2].
    apply N.leb_le in H1, H2. lia.
  - destruct (N.eqb_spec n0 244) as [-> | H244].
    + intros H. apply andb_true_iff in H. destruct H as [H1 H2].
      apply N.leb_le in H1, H2. lia.
    + intros H. apply continuation_range in H. lia.
Qed.

Lemma two_bytes n0 n1 :
  194 <= n0 <= 223 -> 128 <= n1 <= 191 ->
  let c := (n0 - 192) * 64 + (n1 - 128) in
  128 <= c < 2048 /\ 192 + c / 64 = n0 /\ 128 + c mod 64 = n1.
Proof.
  intros H0 H1 c. subst c.
  assert (Hd : ((n0 - 192) * 64 + (n1 - 128)) / 64 = n0 - 192)
    by (symmetry; apply N.div_unique with (r := n1 - 128); lia).
  assert (Hm : ((n0 - 192) * 64 + (n1 - 128)) mod 64 = n1 - 128)
    by (symmetry; apply N.mod_unique with (q := n0 - 192); lia).
  rewrite Hd, Hm. lia.
Qed.

Lemma three_bytes n0 n1 n2 :
  224 <= n0 <= 239 -> 128 <= n1 <= 191 -> 128 <= n2 <= 191 ->
  (n0 = 224 -> 160 <= n1) -> (n0 = 237 -> n1 <= 159) ->
  let c := (n0 - 224) * 4096 + (n1 - 128) * 64 + (n2 - 128) in
  2048 <= c < 65536
  /\ (c < 55296 \/ 57343 < c)
  /\ 224 + c / 4096 = n0
  /\ 128 + (c / 64) mod 64 = n1
  /\ 128 + c mod 64 = n2.
Proof.
  intros H0 H1 H2 Hlow Hsur c. subst c.
  set (c := (n0 - 224) * 4096 + (n1 - 128) * 64 + (n2 - 128)).
  assert (Hd1 : c / 4096 = n0 - 224)
    by (symmetry; apply N.div_unique with (r := (n1 - 128) * 64 + (n2 - 128));
        subst c; lia).
  assert (Hd2 : c / 64 = (n0 - 224) * 64 + (n1 - 128))
    by (symmetry; apply N.div_unique with (r := n2 - 128); subst c; lia).
  assert (Hm2 : ((n0 - 224) * 64 + (n1 - 128)) mod 64 = n1 - 128)
    by (symmetry; apply N.mod_unique with (q := n0 - 224); lia).
  assert (Hm3 : c mod 64 = n2 - 128)
    by (symmetry;
        apply N.mod_unique with (q := (n0 - 224) * 64 + (n1 - 128));
        subst c; lia).
  rewrite Hd1, Hd2, Hm2, Hm3. subst c.
  repeat split; lia.
Qed.

Lemma four_bytes n0 n1 n2 n3 :
  240 <= n0 <= 244 -> 128 <= n1 <= 191 -> 128 <= n2 <= 191 ->
  128 <= n3 <= 191 ->
  (n0 = 240 -> 144 <= n1) -> (n0 = 244 -> n1 <= 143) ->
  let c := (n0 - 240) * 262144 + (n1 - 128) * 4096
           + (n2 - 128) * 64 + (n3 - 128) in
  65536 <= c < 1114112
  /\ 240 + c / 262144 = n0
  /\ 128 + (c / 4096) mod 64 = n1
  /\ 128 + (c / 64) mod 64 = n2
  /\ 128 + c mod 64 = n3.
Proof.
  intros H0 H1 H2 H3 Hlow Hhigh c. subst c.
  set (c := (n0 - 240) * 262144 + (n1 - 128) * 4096
            + (n2 - 128) * 64 + (n3 - 128)).
  assert (Hd1 : c / 262144 = n0 - 240)
    by (symmetry;
        apply N.div_unique
          with (r := (n1 - 128) * 4096 + (n2 - 128) * 64 + (n3 - 128));
        subst c; lia).
  assert (Hd2 : c / 4096 = (n0 - 240) * 64 + (n1 - 128))
    by (symmetry;
        apply N.div_unique with (r := (n2 - 128) * 64 + (n3 - 128));
        subst c; lia).
  assert (Hm2 : ((n0 - 240) * 64 + (n1 - 128)) mod 64 = n1 - 128)
    by (symmetry; apply N.mod_unique with (q := n0 - 240); lia).
  assert (Hd3 : c / 64 = ((n0 - 240) * 64 + (n1 - 128)) * 64 + (n2 - 128))
    by (symmetry; apply N.div_unique with (r := n3 - 128); subst c; lia).
  assert (Hm3 : (((n0 - 240) * 64 + (n1 - 128)) * 64 + (n2 - 128)) mod 64
                = n2 - 128)
    by (symmetry;
        apply N.mod_unique with (q := (n0 - 240) * 64 + (n1 - 128)); lia).
  assert (Hm4 : c mod 64 = n3 - 128)
    by (symmetry;
        apply N.mod_unique
          with (q := ((n0 - 240) * 64 + (n1 - 128)) * 64 + (n2 - 128));
        subst c; lia).
  rewrite Hd1, Hd2, Hm2, Hd3, Hm3, Hm4. subst c.
  repeat split; lia.
Qed.

Lemma range_of b lo hi :
  (lo <=? b) && (b <=? hi) = true -> lo <= b <= hi.
Proof.
  intros H. apply andb_true_iff in H. destruct H as [H1 H2].
  apply N.leb_le in H1, H2. lia.
Qed.

Lemma ltb_of a b : a < b -> (a <? b) = true.
Proof. apply N.ltb_lt. Qed.

Lemma geb_of a b : b <= a -> (a <? b) = false.
Proof. apply N.ltb_ge. Qed.

(** Encoding gives back the bytes that were decoded. *)
Lemma encode_decode_bounded (n : nat) : forall s t,
  (String.length s <= n)%nat -> decode s = Some t -> encode t = Some s.
Proof.
  induction n as [|n IH]; intros s t Hl Hd.
  - destruct s; simpl in *; [|lia]. injection Hd as <-. reflexivity.
  - destruct s as [|c0 s1]; [simpl in Hd; injection Hd as <-; reflexivity|].
    simpl in Hl. cbn [decode] in Hd. cbv zeta in Hd.
    destruct (N_of_ascii c0 <? 128) eqn:E0.
    { destruct (decode s1) as [t1|] eqn:D1; simpl in Hd; [|discriminate].
      injection Hd as <-. simpl. unfold encode_char. rewrite E0.
      rewrite (IH s1 t1) by (try lia; assumption).
      now rewrite ascii_N_embedding. }
    apply N.ltb_ge in E0.
    destruct ((194 <=? N_of_ascii c0) && (N_of_ascii c0 <=? 223)) eqn:E1.
    { apply range_of in E1.
      destruct s1 as [|c1 s2]; [discriminate|].
      destruct (continuation (N_of_ascii c1)) eqn:C1; [|discriminate].
      apply continuation_range in C1.
      destruct (decode s2) as [t2|] eqn:D2; simpl in Hd; [|discriminate].
      injection Hd as <-.
      destruct (two_bytes _ _ E1 C1) as [Hc [Hb0 Hb1]].
      simpl in Hl. simpl. unfold encode_char.
      rewrite (geb_of _ 128), (ltb_of _ 2048) by lia.
      rewrite (IH s2 t2) by (try lia; assumption).
      now rewrite Hb0, Hb1, !ascii_N_embedding. }
    destruct ((224 <=? N_of_ascii c0) && (N_of_ascii c0 <=? 239)) eqn:E2.
    { apply range_of in E2.
      destruct s1 as [|c1 [|c2 s3]]; try discriminate.
      destruct (second_of_three (N_of_ascii c0) (N_of_ascii c1)) eqn:C1;
        [|discriminate].
      destruct (continuation (N_of_ascii c2)) eqn:C2; [|discriminate].
      apply second_of_three_range in C1. destruct C1 as [C1 [Clo Chi]].
      apply continuation_range in C2.
      destruct (decode s3) as [t3|] eqn:D3; simpl in Hd; [|discriminate].
      injection Hd as <-.
      destruct (three_bytes _ _ _ E2 C1 C2 Clo Chi)
        as [Hc [Hs [Hb0 [Hb1 Hb2]]]].
      simpl in Hl. simpl. unfold encode_char.
      rewrite (geb_of _ 128), (geb_of _ 2048), (ltb_of _ 65536) by lia.
      replace ((55296 <=? _) && (_ <=? 57343)) with false
        by (symmetry; apply andb_false_iff; destruct Hs;
            [left; apply N.leb_gt | right; apply N.leb_gt]; lia).
      rewrite (IH s3 t3) by (try lia; assumption).
      now rewrite Hb0, Hb1, Hb2, !ascii_N_embedding. }
    destruct ((240 <=? N_of_ascii c0) && (N_of_ascii c0 <=? 244)) eqn:E3;
      [|discriminate].
    apply range_of in E3.
    destruct s1 as [|c1 [|c2 [|c3 s4]]]; try discriminate.
    destruct (second_of_four (N_of_ascii c0) (N_of_ascii c1)) eqn:C1;
      [|discriminate].
    destruct (continuation (N_of_ascii c2)) eqn:C2; [|discriminate].
    destruct (continuation (N_of_ascii c3)) eqn:C3; [|discriminate].
    apply second_of_four_range in C1. destruct C1 as [C1 [Clo Chi]].
    apply continuation_range in C2, C3.
    destruct (decode s4) as [t4|] eqn:D4; simpl in Hd; [|discriminate].
    injection Hd as <-.
    destruct (four_bytes _ _ _ _ E3 C1 C2 C3 Clo Chi)
      as [Hc [Hb0 [Hb1 [Hb2 Hb3]]]].
    simpl in Hl. simpl. unfold encode_char.
    rewrite (geb_of _ 128), (geb_of _ 2048), (geb_of _ 65536),
      (ltb_of _ 1114112) by lia.
    rewrite (IH s4 t4) by (try lia; assumption).
    now rewrite Hb0, Hb1, Hb2, Hb3, !ascii_N_embedding.
Qed.

Lemma encode_decode s t : decode s = Some t -> encode t = Some s.
Proof. apply (encode_decode_bounded (String.length s)). lia. Qed.

(** Two byte strings that decode to the same text are the same. *)
Lemma decode_injective s1 s2 t :
  decode s1 = Some t -> decode s2 = Some t -> s1 = s2.
Proof.
  intros H1 H2. apply encode_decode in H1, H2. congruence.
Qed.

End TextFacts.

(** ** The pattern reader *)

Module FnmatchFacts.
Import Fnmatch.
Local Open Scope N_scope.

Lemma until_bracket_shorter p : forall body rest,
  until_bracket p = Some (body, rest) ->
  (List.length rest < List.length p)%nat.
Proof.
  induction p as [|c q IH]; simpl; intros body rest H; [discriminate|].
  destruct (c =? closing).
  - injection H as _ <-. lia.
  - destruct (until_bracket q) as [[b r]|]; [|discriminate].
    injection H as _ <-. specialize (IH b r eq_refl). lia.
Qed.

Lemma scan_class_shorter q neg stuff rest :
  scan_class q = Some (neg, stuff, rest) ->
  (List.length rest <= List.length q)%nat.
Proof.
  unfold scan_class.
  destruct q as [|c q]; simpl; [discriminate|].
  destruct (c =? bang).
  - destruct q as [|d q]; simpl; [discriminate|].
    destruct (d =? closing).
    + destruct (until_bracket q) as [[b r]|] eqn:E; [|discriminate].
      intros H. injection H as _ _ <-.
      apply until_bracket_shorter in E. simpl. lia.
    + destruct (until_bracket (d :: q)) as [[b r]|] eqn:E; [|discriminate].
      intros H. injection H as _ _ <-.
      apply until_bracket_shorter in E. simpl in E. simpl. lia.
  - destruct (c =? closing).
    + destruct (until_bracket q) as [[b r]|] eqn:E; [|discriminate].
      intros H. injection H as _ _ <-.
      apply until_bracket_shorter in E. simpl. lia.
    + destruct (until_bracket (c :: q)) as [[b r]|] eqn:E; [|discriminate].
      intros H. injection H as _ _ <-.
      apply until_bracket_shorter in E. simpl in E. simpl. lia.
Qed.

(** The reader never runs out of fuel: any fuel from the length of the
    pattern on gives the same tokens. *)
Lemma tokens_enough_fuel : forall n p m,
  (List.length p <= n)%nat -> (List.length p <= m)%nat ->
  tokens n p = tokens m p.
Proof.
  induction n as [|n IH]; intros p m Hn Hm.
  - destruct p; [|simpl in Hn; lia]. destruct m; reflexivity.
  - destruct p as [|c q]; [destruct m; reflexivity|].
    destruct m as [|m]; [simpl in Hm; lia|].
    simpl in Hn, Hm. simpl.
    destruct (c =? star); [f_equal; apply IH; lia|].
    destruct (c =? question); [f_equal; apply IH; lia|].
    destruct (c =? bracket).
    + destruct (scan_class q) as [[[neg stuff] rest]|] eqn:E.
      * apply scan_class_shorter in E. f_equal; apply IH; lia.
      * f_equal; apply IH; lia.
    + f_equal; apply IH; lia.
Qed.

End FnmatchFacts.

(** ** The device directory and the matcher *)

Module DevicesFacts.
Import WinPcapDevices Notions TextFacts.

Lemma dict_set_fresh (k v : text) (d : dict) :
  ~ In k (map fst d) -> dict_set k v d = d ++ [(k, v)].
Proof.
  induction d as [|[k' v'] d IH]; simpl; intros Hk; [reflexivity|].
  destruct (text_eqb k' k) eqn:E.
  - apply text_eqb_eq in E. subst k'. exfalso. apply Hk. now left.
  - rewrite IH; [reflexivity|]. intros Hin. apply Hk. now right.
Qed.

Lemma fill_distinct (devs : list pcap_if) : forall res ents,
  decode_all devs = Some ents ->
  NoDup (map fst res ++ map fst ents) ->
  fill res devs = Return (res ++ ents).
Proof.
  induction devs as [|d devs IH]; simpl; intros res ents Hd Hnd.
  - injection Hd as <-. now rewrite app_nil_r.
  - unfold decoded in Hd.
    destruct (Utf8.decode (name d)) as [k|]; [|discriminate].
    destruct (Utf8.decode (description d)) as [v|]; [|discriminate].
    destruct (decode_all devs) as [es|]; [|discriminate].
    injection Hd as <-. simpl in Hnd.
    rewrite dict_set_fresh.
    + rewrite (IH _ es eq_refl).
      * now rewrite <- app_assoc.
      * rewrite map_app. simpl. rewrite <- app_assoc. exact Hnd.
    + apply NoDup_remove_2 in Hnd. intros Hin. apply Hnd.
      apply in_or_app. now left.
Qed.

Lemma decode_all_names devs : forall ents,
  decode_all devs = Some ents ->
  forall k, In k (map fst ents) ->
            exists d, In d devs /\ Utf8.decode (name d) = Some k.
Proof.
  induction devs as [|d devs IH]; simpl; intros ents Hd k Hin.
  - injection Hd as <-. destruct Hin.
  - unfold decoded in Hd.
    destruct (Utf8.decode (name d)) as [k0|] eqn:Dn; [|discriminate].
    destruct (Utf8.decode (description d)) as [v|]; [|discriminate].
    destruct (decode_all devs) as [es|]; [|discriminate].
    injection Hd as <-. simpl in Hin. destruct Hin as [<- | Hin].
    + exists d. split; [now left | exact Dn].
    + destruct (IH es eq_refl k Hin) as [x [Hx Dx]].
      exists x. split; [now right | exact Dx].
Qed.

(** Devices with distinct names have distinct names as text. *)
Lemma decode_all_nodup devs : forall ents,
  decode_all devs = Some ents ->
  NoDup (map name devs) -> NoDup (map fst ents).
Proof.
  induction devs as [|d devs IH]; simpl; intros ents Hd Hnd.
  - injection Hd as <-. constructor.
  - pose proof (decode_all_names devs) as Hnames.
    unfold decoded in Hd.
    destruct (Utf8.decode (name d)) as [k|] eqn:Dn; [|discriminate].
    destruct (Utf8.decode (description d)) as [v|]; [|discriminate].
    destruct (decode_all devs) as [es|]; [|discriminate].
    injection Hd as <-. inversion Hnd as [|? ? Hout Hrest]; subst.
    simpl. constructor; [|now apply IH].
    intros Hin. destruct (Hnames es eq_refl k Hin) as [x [Hx Dx]].
    apply Hout. rewrite (decode_injective _ _ _ Dn Dx).
    now apply in_map.
Qed.

Lemma decode_all_total devs :
  Forall decodable devs -> exists ents, decode_all devs = Some ents.
Proof.
  induction 1 as [|d devs Hd _ [es IH]]; simpl; [now exists []|].
  unfold decodable in Hd. destruct (decoded d) as [e|]; [|contradiction].
  rewrite IH. now exists (e :: es).
Qed.

Lemma first_item_hit os glob (pre post : list pcap_if) (d : pcap_if) :
  forall ents,
    decode_all (pre ++ d :: post) = Some ents ->
    (forall x, In x pre -> matches os glob x = false) ->
    matches os glob d = true ->
    exists nm descr,
      decoded d = Some (nm, descr)
      /\ first_item os glob ents = (Some nm, Some descr).
Proof.
  induction pre as [|x pre IH]; simpl; intros ents Hall Hpre Hd.
  - unfold matches in Hd. unfold decoded in *.
    destruct (Utf8.decode (name d)) as [k|]; [|discriminate].
    destruct (Utf8.decode (description d)) as [v|]; [|discriminate].
    destruct (decode_all post) as [es|]; [|discriminate].
    injection Hall as <-. exists k, v. split; [reflexivity|].
    simpl. now rewrite Hd.
  - pose proof (Hpre x (or_introl eq_refl)) as Hx. unfold matches in Hx.
    unfold decoded in Hall.
    destruct (Utf8.decode (name x)) as [k|]; [|discriminate].
    destruct (Utf8.decode (description x)) as [v|]; [|discriminate].
    destruct (decode_all (pre ++ d :: post)) as [es|] eqn:E; [|discriminate].
    injection Hall as <-. simpl. rewrite Hx.
    apply (IH es eq_refl); auto.
Qed.

Lemma first_item_miss os glob (devs : list pcap_if) : forall ents,
  decode_all devs = Some ents ->
  (forall x, In x devs -> matches os glob x = false) ->
  first_item os glob ents = (None, None).
Proof.
  induction devs as [|x devs IH]; simpl; intros ents Hall H.
  - injection Hall as <-. reflexivity.
  - pose proof (H x (or_introl eq_refl)) as Hx. unfold matches in Hx.
    unfold decoded in Hall.
    destruct (Utf8.decode (name x)) as [k|]; [|discriminate].
    destruct (Utf8.decode (description x)) as [v|]; [|discriminate].
    destruct (decode_all devs) as [es|]; [|discriminate].
    injection Hall as <-. simpl. rewrite Hx. apply (IH es eq_refl). auto.
Qed.

Lemma follow_links_all (l : list pcap_if) : follow_links l = l.
Proof. induction l as [|d l IH]; simpl; [reflexivity | now rewrite IH]. Qed.

Lemma get_matching_device_eq os lib glob w status devs err :
  findalldevs lib = (status, devs, err) -> status <> -1 ->
  fst (get_matching_device os lib glob w)
  = match fill [] devs with
    | Return d => Return (first_item os glob d)
    | Raise e => Raise e
    end.
Proof.
  intros Hf Hs. unfold get_matching_device, list_devices, __enter__. simpl.
  rewrite Hf. apply Z.eqb_neq in Hs. rewrite Hs.
  unfold pcap_interface_iterator. simpl. rewrite follow_links_all.
  now destruct (fill [] devs).
Qed.

Lemma fill_of_distinct devs :
  Forall decodable devs -> NoDup (map name devs) ->
  exists ents, decode_all devs = Some ents /\ fill [] devs = Return ents.
Proof.
  intros Hdec Hnd. destruct (decode_all_total devs Hdec) as [ents Hall].
  exists ents. split; [exact Hall|].
  apply (fill_distinct devs [] ents Hall). simpl.
  now apply (decode_all_nodup devs).
Qed.

Lemma ascii_below (s : text) :
  forallb (fun c => (c <? 128)%N) s = true -> Forall (fun c => (c < 128)%N) s.
Proof.
  induction s as [|c s IH]; simpl; intros H; constructor.
  - apply andb_true_iff in H. now apply N.ltb_lt.
  - apply IH. now apply andb_true_iff in H.
Qed.

(** Matching two ASCII texts on a platform whose lowercase function
    folds ASCII as usual. *)
Lemma fnmatch_ascii os (nm pat : text) :
  folds_ascii os ->
  forallb (fun c => (c <? 128)%N) (map Fnmatch.unslash nm) = true ->
  forallb (fun c => (c <? 128)%N) (map Fnmatch.unslash pat) = true ->
  Fnmatch.fnmatch os nm pat
  = match os with
    | Fnmatch.Posix => Fnmatch.fnmatchcase nm pat
    | Fnmatch.Windows _ =>
        Fnmatch.fnmatchcase
          (map Fnmatch.lower_ascii (map Fnmatch.unslash nm))
          (map Fnmatch.lower_ascii (map Fnmatch.unslash pat))
    end.
Proof.
  intros Hos Hn Hp. destruct os as [|lower]; [reflexivity|].
  unfold Fnmatch.fnmatch, Fnmatch.normcase. simpl in Hos.
  now rewrite !Hos by (now apply ascii_below).
Qed.

(** C4: when the names and descriptions of the devices are well-formed
    UTF-8, the names are pairwise distinct and the enumeration
    succeeds, the find operation returns the first device in directory
    order whose description matches the glob pattern (as
    [fnmatch.fnmatch] matches it on the host platform) and the pair
    (None, None), without raising, when no description matches; over
    the descriptions "Intel Ethernet", "Wi-Fi 6", "Loopback" the
    pattern "*Ethernet*" returns the "Intel Ethernet" device and
    "NoSuch*" returns no device. *)
Theorem get_matching_device_first_match :
  forall os devs glob,
    Forall decodable devs ->
    NoDup (map name devs) ->
    finds_first_match os devs glob
    /\ reports_no_match os devs glob
    /\ (folds_ascii os ->
        map description devs = ["Intel Ethernet"; "Wi-Fi 6"; "Loopback"] ->
        forall lib w status err,
          findalldevs lib = (status, devs, err) ->
          status <> -1 ->
          exists d rest nm,
            devs = d :: rest
            /\ Utf8.decode (name d) = Some nm
            /\ fst (get_matching_device os lib (text_of "*Ethernet*") w)
               = Return (Some nm, Some (text_of "Intel Ethernet"))
            /\ fst (get_matching_device os lib (text_of "NoSuch*") w)
               = Return (None, None)).
Proof.
  intros os devs glob Hdec Hnd.
  destruct (fill_of_distinct devs Hdec Hnd) as [ents [Hall Hfill]].
  split; [|split].
  - intros lib w status err Hf Hs pre d post Hsplit Hpre Hd.
    rewrite (get_matching_device_eq _ _ _ _ _ _ _ Hf Hs), Hfill.
    subst devs.
    destruct (first_item_hit os glob pre post d ents Hall Hpre Hd)
      as [nm [descr [Hdd Hfi]]].
    exists nm, descr. split; [exact Hdd | now rewrite Hfi].
  - intros lib w status err Hf Hs Hnone.
    rewrite (get_matching_device_eq _ _ _ _ _ _ _ Hf Hs), Hfill.
    now rewrite (first_item_miss os _ devs ents Hall Hnone).
  - intros Hos Hdescr lib w status err Hf Hs.
    rewrite !(get_matching_device_eq _ _ _ _ _ _ _ Hf Hs), Hfill.
    destruct devs as [|[n1 d1] [|[n2 d2] [|[n3 d3] [|? ?]]]];
      simpl in Hdescr; try discriminate.
    injection Hdescr as -> -> ->.
    simpl in Hall. unfold decoded in Hall. simpl in Hall.
    destruct (Utf8.decode n1) as [k1|] eqn:D1; [|discriminate].
    destruct (Utf8.decode n2) as [k2|]; [|discriminate].
    destruct (Utf8.decode n3) as [k3|]; [|discriminate].
    injection Hall as <-.
    exists (mk_pcap_if n1 "Intel Ethernet"),
      [mk_pcap_if n2 "Wi-Fi 6"; mk_pcap_if n3 "Loopback"], k1.
    split; [reflexivity|]. split; [exact D1|].
    cbn [first_item].
    rewrite !(fnmatch_ascii os _ _ Hos) by reflexivity.
    destruct os; split; reflexivity.
Qed.

Lemma get_matching_device_first_match_witness :
  Forall decodable Examples.three_devices
  /\ NoDup (map name Examples.three_devices)
  /\ fst (get_matching_device Fnmatch.Posix
            (Examples.good_lib Examples.three_devices)
            (text_of "*Ethernet*") world0)
     = Return (Some (text_of "eth0"), Some (text_of "Intel Ethernet"))
  /\ fst (get_matching_device Fnmatch.Posix
            (Examples.good_lib Examples.three_devices)
            (text_of "NoSuch*") world0)
     = Return (None, None).
Proof.
  assert (Hdec : Forall decodable Examples.three_devices).
  { repeat constructor; discriminate. }
  assert (Hnd : NoDup (map name Examples.three_devices)).
  { repeat constructor; simpl; intuition discriminate. }
  assert (Hs : 0 <> -1) by lia.
  split; [exact Hdec|]. split; [exact Hnd|].
  destruct (proj2 (proj2
    (get_matching_device_first_match Fnmatch.Posix
       Examples.three_devices (text_of "*") Hdec Hnd)) I eq_refl
    (Examples.good_lib Examples.three_devices) world0 0 "" eq_refl Hs)
    as [d [rest [nm [Hsplit [Hname [H1 H2]]]]]].
  injection Hsplit as <- <-. simpl in Hname. injection Hname as <-.
  split; [exact H1 | exact H2].
Defined.

(** C4, as first stated, for every device sequence.  With an interface
    name reported twice the listing keeps one entry per name, holding
    the description written last, and the first device whose
    description matches is not returned.  With a description that is
    not UTF-8 the operation raises [UnicodeDecodeError].  On a Windows
    host the match folds case.  When nothing matches the operation
    returns the pair (None, None) and raises nothing. *)
Lemma get_matching_device_repeated_name :
  ~ (forall devs glob, finds_first_match Fnmatch.Posix devs glob)
  /\ ~ (forall devs glob, reports_no_match Fnmatch.Posix devs glob)
  /\ (forall lower,
         folds_ascii (Fnmatch.Windows lower) ->
         fst (get_matching_device (Fnmatch.Windows lower)
                (Examples.good_lib Examples.three_devices)
                (text_of "*ethernet*") world0)
         = Return (Some (text_of "eth0"), Some (text_of "Intel Ethernet")))
  /\ fst (get_matching_device Fnmatch.Posix
            (Examples.good_lib Examples.three_devices)
            (text_of "NoSuch*") world0)
     = Return (None, None).
Proof.
  split; [|split; [|split; [|reflexivity]]]; cycle 2.
  { intros lower Hos.
    rewrite (get_matching_device_eq (Fnmatch.Windows lower)
               (Examples.good_lib Examples.three_devices)
               (text_of "*ethernet*") world0 0 Examples.three_devices ""
               eq_refl) by lia.
    change (fill [] Examples.three_devices)
      with (Return [(text_of "eth0", text_of "Intel Ethernet");
                    (text_of "wlan0", text_of "Wi-Fi 6");
                    (text_of "lo", text_of "Loopback")]).
    cbn [first_item].
    rewrite (fnmatch_ascii (Fnmatch.Windows lower) _ _ Hos) by reflexivity.
    reflexivity. }
  - intros Hall.
    destruct (Hall Examples.repeated_name (text_of "*Ethernet*")
                (Examples.good_lib Examples.repeated_name) world0 0 ""
                eq_refl ltac:(lia)
                [] (mk_pcap_if "eth0" "Intel Ethernet")
                [mk_pcap_if "wlan0" "Wi-Fi 6"; mk_pcap_if "eth0" "Loopback"]
                eq_refl ltac:(intros x []) eq_refl)
      as [nm [descr [_ Hres]]].
    discriminate Hres.
  - intros Hall.
    assert (Hnone : forall x, In x Examples.undecodable ->
                              matches Fnmatch.Posix (text_of "*") x = false).
    { intros x [<- | []]. reflexivity. }
    pose proof (Hall Examples.undecodable (text_of "*")
                  (Examples.good_lib Examples.undecodable) world0 0 ""
                  eq_refl ltac:(lia) Hnone) as Hres.
    discriminate Hres.
Qed.

(** On a Windows host [fnmatch.fnmatch] folds the case of both the
    description and the pattern. *)
Lemma fnmatch_folds_case_on_windows :
  Fnmatch.fnmatch (Fnmatch.Windows (map Fnmatch.lower_ascii))
                  (text_of "Intel Ethernet") (text_of "*ethernet*") = true
  /\ Fnmatch.fnmatch Fnmatch.Posix
                     (text_of "Intel Ethernet") (text_of "*ethernet*") = false.
Proof. split; reflexivity. Qed.

(** C6: after [__exit__] has released the native list the iteration
    does not raise; it walks the list the released pointer leads to. *)
Theorem iterate_after_exit :
  let '(_, devices, w1) :=
    __enter__ (Examples.good_lib Examples.three_devices) __init__ world0 in
  let '(_, devices', w2) := __exit__ devices w1 in
  devlist_allocated w1 = true
  /\ devlist_allocated w2 = false
  /\ log w2 = [Native_findalldevs; Native_freealldevs]
  /\ pcap_interface_iterator devices' = Return Examples.three_devices.
Proof. repeat split. Qed.

End DevicesFacts.

(** ** The receive loop *)

Module LoopFacts.
Import Native WinPcap.

Lemma pcap_loop_eq h callback cnt delivered wire w :
  pcap_loop h callback cnt delivered wire w =
  if (0 <? cnt) && (cnt <=? delivered) then (Some 0, wire, w)
  else if break_flag w then (Some (-2), wire, set_break false w)
  else
    match wire with
    | [] => (None, wire, w)
    | Frame hdr addr captured :: wire' =>
        pcap_loop h callback cnt (delivered + 1) wire'
          (callback NULL hdr addr (set_mem (store (mem w) addr captured) w))
    | StopRequest :: wire' =>
        pcap_loop h callback cnt delivered wire' (pcap_breakloop (Some h) w)
    | DeviceError :: wire' => (Some (-1), wire', w)
    end.
Proof. destruct wire; reflexivity. Qed.

Lemma call_handles o self param hdr data w :
  open_handles (snd (call o self param hdr data w)) = open_handles w.
Proof.
  destruct o; simpl; try reflexivity;
    destruct (calls_stop (f hdr data)), (raises (f hdr data));
    destruct (_handle self); reflexivity.
Qed.

Lemma wrapper_handles self param hdr ptr w :
  open_handles (_callback_wrapper self param hdr ptr w) = open_handles w.
Proof.
  unfold _callback_wrapper, packet_handler.
  destruct (negb _); simpl; [reflexivity|].
  pose proof (call_handles (_callback self) self param hdr
                (string_at (mem w) ptr (len hdr)) w) as Hc.
  destruct (call _ _ _ _ _ _) as [[?|?] w1]; simpl in *; exact Hc.
Qed.

Lemma pcap_loop_handles h callback cnt :
  (forall p hd a w, open_handles (callback p hd a w) = open_handles w) ->
  forall wire delivered w,
    open_handles (snd (pcap_loop h callback cnt delivered wire w))
    = open_handles w.
Proof.
  intros Hcb wire.
  induction wire as [|ev wire IH]; intros delivered w; rewrite pcap_loop_eq;
    destruct ((0 <? cnt) && (cnt <=? delivered)); try reflexivity;
    destruct (break_flag w); try reflexivity.
  destruct ev as [hdr addr captured| |]; try reflexivity.
  - rewrite IH, Hcb. reflexivity.
  - rewrite IH. reflexivity.
Qed.

End LoopFacts.

(** ** The session lifecycle *)

Module SessionFacts.
Import Native WinPcap Notions LoopFacts.

Lemma released_remove h l : existsb (Z.eqb h) (remove Z.eq_dec h l) = false.
Proof.
  destruct (existsb _ _) eqn:E; [|reflexivity].
  apply existsb_exists in E. destruct E as [x [Hin Hx]].
  apply Z.eqb_eq in Hx. subst x. exfalso. revert Hin. apply remove_In.
Qed.

(** C2: opening a new session returns normally whatever the native
    open-live call answers; when it answers NULL the session keeps the
    NULL pointer as its handle, the diagnostic stays unread in the
    error buffer, and a later [run] passes its guard and enters the
    native loop with the NULL handle. *)
Theorem enter_ignores_null_handle :
  (forall lib device snap_length promiscuous timeout w,
      fst (fst (__enter__ lib (__init__ device snap_length promiscuous timeout) w))
      = Return tt)
  /\ (let '(r, s, w) := __enter__ Examples.refusing_lib (new "eth0") world0 in
      r = Return tt
      /\ _handle s = Some NULL
      /\ _err_buffer s = "permission denied"
      /\ log (snd (run s (PyFunction Examples.quiet) 0 [] w))
         = [Native_open_live "eth0" 65536 1 1000; Native_loop NULL 0]).
Proof.
  split.
  - intros lib device snap_length promiscuous timeout w.
    unfold __enter__, pcap_open_live. simpl.
    destruct (open_live lib device snap_length promiscuous timeout) as [h err].
    reflexivity.
  - repeat split.
Qed.

(** C3: on a session that was opened and then closed, [send] passes its
    guard, hands the released handle to the native send-packet call and
    returns normally. *)
Theorem send_after_exit :
  forall lib device buf w,
    let '(_, s1, w1) := __enter__ lib (new device) w in
    let '(_, s2, w2) := __exit__ s1 w1 in
    let '(r, _, w3) := send lib s2 buf w2 in
    r = Return tt
    /\ exists h,
        _handle s2 = Some h
        /\ In (Native_close h) (log w2)
        /\ existsb (Z.eqb h) (open_handles w2) = false
        /\ log w3
           = log w2 ++ [Native_sendpacket h buf (Z.of_nat (List.length buf))].
Proof.
  intros lib device buf w. unfold __enter__, pcap_open_live. simpl.
  destruct (open_live lib device 65536 1 1000) as [h err]. simpl.
  split; [reflexivity|]. exists h. repeat split.
  - apply in_or_app. right. now left.
  - apply released_remove.
Qed.

(** C5: on an open session [send] makes one native send-packet call
    and returns normally whatever status the call reports; with a
    library that reports -1 no error reaches the caller. *)
Theorem send_discards_status :
  (forall lib s h err buf w,
      send lib (with_handle s h err) buf w
      = (Return tt, with_handle s h err,
         emit (Native_sendpacket h buf (Z.of_nat (List.length buf))) w))
  /\ (let '(_, s, w) :=
        __enter__ Examples.failing_send_lib (new "eth0") world0 in
      sendpacket Examples.failing_send_lib 7 [x01; x02] 2 = -1
      /\ fst (fst (send Examples.failing_send_lib s [x01; x02] w)) = Return tt
      /\ log (snd (send Examples.failing_send_lib s [x01; x02] w))
         = [Native_open_live "eth0" 65536 1 1000;
            Native_sendpacket 7 [x01; x02] 2]).
Proof. split; [reflexivity | repeat split]. Qed.

(** C9: [stop] always calls the native breakloop.  On a session that
    was never opened it passes [None], which ctypes turns into a NULL
    handle; on an open session with no loop running it leaves the
    break flag raised, so that the next [run] delivers nothing. *)
Theorem stop_always_calls_breakloop :
  (forall device w,
      stop (new device) w
      = (Return tt, new device, emit (Native_breakloop None) w))
  /\ (let '(_, s, w) :=
        __enter__ (Examples.good_lib Examples.three_devices)
                  (new "eth0") world0 in
      let '(_, s', w') := stop s w in
      break_flag w = false
      /\ break_flag w' = true
      /\ List.length
           (callbacks (log (snd (run s (PyFunction Examples.quiet) 3
                                     Examples.five_frames w)))) = 3%nat
      /\ callbacks (log (snd (run s' (PyFunction Examples.quiet) 3
                                  Examples.five_frames w'))) = []).
Proof. split; [reflexivity | repeat split]. Qed.

(** Once a session holds a handle it keeps it. *)
Lemma step_keeps_handle lib o s w h :
  _handle s = Some h -> _handle (snd (fst (step lib o s w))) = Some h.
Proof.
  intros Hh. destruct o; simpl.
  - unfold __enter__. rewrite Hh. exact Hh.
  - unfold __exit__. rewrite Hh. exact Hh.
  - exact Hh.
  - unfold send. rewrite Hh. exact Hh.
  - unfold run. rewrite Hh.
    destruct (pcap_loop _ _ _ _ _ _) as [[st wi] w2]. exact Hh.
Qed.

Lemma step_enter_locked lib s w h :
  _handle s = Some h ->
  fst (fst (step lib Enter s w)) = Some (Raise AssertionError).
Proof. intros Hh. simpl. unfold __enter__. now rewrite Hh. Qed.

Lemma step_without_handle lib o s w :
  _handle s = None -> o <> Enter ->
  snd (fst (step lib o s w)) = s /\ open_handles (snd (step lib o s w)) = open_handles w.
Proof.
  intros Hh Ho. destruct o; simpl; try congruence.
  - unfold __exit__. now rewrite Hh.
  - unfold stop. rewrite Hh. now split.
  - unfold send. now rewrite Hh.
  - unfold run. now rewrite Hh.
Qed.

Lemma step_stays_released lib o s w h :
  _handle s = Some h -> released h w -> released h (snd (step lib o s w)).
Proof.
  unfold released. intros Hh Hr. destruct o; simpl.
  - unfold __enter__. now rewrite Hh.
  - unfold __exit__. rewrite Hh. simpl. apply released_remove.
  - rewrite Hh. exact Hr.
  - unfold send. now rewrite Hh.
  - unfold run. rewrite Hh.
    pose proof (pcap_loop_handles h
      (_callback_wrapper (with_callback s callback)) limit
      (wrapper_handles _) wire 0 (emit (Native_loop h limit) w)) as Hk.
    destruct (pcap_loop _ _ _ _ _ _) as [[st wi] w2]. simpl in *.
    now rewrite Hk.
Qed.

Lemma exec_cons lib o ops s w :
  exec lib (o :: ops) s w
  = mk_moment o (fst (fst (step lib o s w))) (snd (fst (step lib o s w)))
              (snd (step lib o s w))
    :: exec lib ops (snd (fst (step lib o s w))) (snd (step lib o s w)).
Proof. simpl. destruct (step lib o s w) as [[r s1] w1]. reflexivity. Qed.

Lemma locked_refuses lib ops : forall s w h,
  _handle s = Some h ->
  Forall refused (exec lib ops s w) /\ filter opened (exec lib ops s w) = [].
Proof.
  induction ops as [|o ops IH]; intros s w h Hh; [now split|].
  rewrite exec_cons.
  destruct (IH _ (snd (step lib o s w)) h (step_keeps_handle lib o s w h Hh))
    as [IH1 IH2].
  split.
  - constructor; [|exact IH1]. intros Hd. simpl in Hd. subst o. simpl.
    unfold __enter__. now rewrite Hh.
  - simpl. unfold opened at 1. simpl.
    destruct o; try exact IH2.
    rewrite (step_enter_locked lib s w h Hh). exact IH2.
Qed.

Lemma released_all_closed lib ops : forall s w h,
  _handle s = Some h -> released h w ->
  Forall (fun p => p = Closed) (phases (exec lib ops s w)).
Proof.
  induction ops as [|o ops IH]; intros s w h Hh Hr; [constructor|].
  rewrite exec_cons. unfold phases. simpl.
  pose proof (step_keeps_handle lib o s w h Hh) as Hh'.
  pose proof (step_stays_released lib o s w h Hh Hr) as Hr'.
  constructor.
  - unfold phase_of. rewrite Hh'. unfold released in Hr'. now rewrite Hr'.
  - exact (IH _ _ h Hh' Hr').
Qed.

Lemma follows_closed ps : Forall (fun p => p = Closed) ps ->
  forall st, follows st ps = true.
Proof.
  induction 1 as [|p ps Hp _ IH]; intros st; [reflexivity|].
  subst p. destruct st; simpl; apply IH.
Qed.

Lemma locked_follows lib ops : forall s w h,
  _handle s = Some h -> follows Opened (phases (exec lib ops s w)) = true.
Proof.
  induction ops as [|o ops IH]; intros s w h Hh; [reflexivity|].
  rewrite exec_cons. unfold phases. simpl.
  pose proof (step_keeps_handle lib o s w h Hh) as Hh'.
  unfold phase_of at 1. rewrite Hh'.
  destruct (existsb _ _) eqn:E; simpl.
  - exact (IH _ _ h Hh').
  - apply follows_closed. exact (released_all_closed lib ops _ _ h Hh' E).
Qed.

Lemma fresh_follows lib ops : forall s w,
  _handle s = None -> follows Fresh (phases (exec lib ops s w)) = true.
Proof.
  induction ops as [|o ops IH]; intros s w Hh; [reflexivity|].
  rewrite exec_cons. unfold phases. simpl.
  destruct (_handle (snd (fst (step lib o s w)))) as [h|] eqn:Hh'.
  - unfold phase_of at 1. rewrite Hh'.
    destruct (existsb _ _) eqn:E; simpl.
    + exact (locked_follows lib ops _ _ h Hh').
    + apply follows_closed. exact (released_all_closed lib ops _ _ h Hh' E).
  - unfold phase_of at 1. rewrite Hh'. simpl. apply IH. exact Hh'.
Qed.

Lemma fresh_opens_once lib ops : forall s w,
  (List.length (filter opened (exec lib ops s w)) <= 1)%nat.
Proof.
  induction ops as [|o ops IH]; intros s w; [simpl; lia|].
  rewrite exec_cons. simpl.
  destruct (opened _) eqn:Ho; [|apply IH].
  assert (Hh : exists h, _handle (snd (fst (step lib o s w))) = Some h).
  { unfold opened in Ho. simpl in Ho. destruct o; try discriminate.
    simpl in *. unfold __enter__ in *.
    destruct (_handle s); simpl in *; [discriminate|].
    destruct (pcap_open_live _ _ _ _ _ _) as [[h err] w1]. simpl. eauto. }
  destruct Hh as [h Hh].
  rewrite (proj2 (locked_refuses lib ops _ _ h Hh)). simpl. lia.
Qed.

Lemma exec_tail lib ops : forall s w pre m post,
  exec lib ops s w = pre ++ m :: post ->
  exists ops', post = exec lib ops' (session m) (world m).
Proof.
  induction ops as [|o ops IH]; intros s w pre m post He.
  - destruct pre; discriminate.
  - rewrite exec_cons in He. destruct pre as [|m0 pre]; simpl in He.
    + injection He as <- <-. exists ops. reflexivity.
    + injection He as _ He. exact (IH _ _ _ _ _ He).
Qed.

Lemma exec_moment lib ops : forall s w m,
  In m (exec lib ops s w) ->
  exists s0 w0, m = mk_moment (did m) (fst (fst (step lib (did m) s0 w0)))
                              (snd (fst (step lib (did m) s0 w0)))
                              (snd (step lib (did m) s0 w0)).
Proof.
  induction ops as [|o ops IH]; intros s w m Hin; [destruct Hin|].
  rewrite exec_cons in Hin. destruct Hin as [<-|Hin].
  - exists s, w. reflexivity.
  - exact (IH _ _ _ Hin).
Qed.

Lemma opened_holds_handle lib ops s w m :
  In m (exec lib ops s w) -> opened m = true -> _handle (session m) <> None.
Proof.
  intros Hin Ho. destruct (exec_moment lib ops s w m Hin) as [s0 [w0 Hm]].
  unfold opened in Ho. destruct (did m) eqn:Hd; try discriminate.
  rewrite Hm in Ho |- *. simpl in *. unfold __enter__ in *.
  destruct (_handle s0) eqn:Hh; simpl in *; [discriminate|].
  destruct (pcap_open_live _ _ _ _ _ _) as [[h err] w1]. simpl. discriminate.
Qed.

(** C7: over any sequence of operations on one session instance at
    most one open succeeds; once an open has succeeded every later
    open, with or without a close in between, fails with the guard's
    AssertionError; and the observed states go Closed, Open, Closed and
    never back to Open. *)
Theorem one_open_per_instance :
  forall lib device snap_length promiscuous timeout ops w,
    let ms := exec lib ops (__init__ device snap_length promiscuous timeout) w in
    (List.length (filter opened ms) <= 1)%nat
    /\ (forall pre m post,
           ms = pre ++ m :: post -> opened m = true ->
           forall m', In m' post -> did m' = Enter ->
                      outcome m' = Some (Raise AssertionError))
    /\ follows Fresh (phases ms) = true.
Proof.
  intros lib device snap_length promiscuous timeout ops w ms.
  split; [apply fresh_opens_once|]. split; [|now apply fresh_follows].
  intros pre m post He Ho m' Hin Hd.
  assert (Hm : In m ms) by (rewrite He; apply in_or_app; right; now left).
  pose proof (opened_holds_handle _ _ _ _ _ Hm Ho) as Hh.
  destruct (exec_tail _ _ _ _ _ _ _ He) as [ops' ->].
  destruct (_handle (session m)) as [h|] eqn:Hhm; [|congruence].
  pose proof (proj1 (locked_refuses lib ops' _ (world m) h Hhm)) as Hall.
  rewrite Forall_forall in Hall. exact (Hall m' Hin Hd).
Qed.

Lemma one_open_per_instance_witness :
  let ms := exec (Examples.good_lib Examples.three_devices)
                 [Enter; Enter; Exit; Enter] (new "eth0") world0 in
  map outcome ms
  = [Some (Return tt); Some (Raise AssertionError); Some (Return tt);
     Some (Raise AssertionError)]
  /\ phases ms = [Open; Open; Closed; Closed]
  /\ (List.length (filter opened ms) <= 1)%nat
  /\ follows Fresh (phases ms) = true.
Proof.
  pose proof (one_open_per_instance (Examples.good_lib Examples.three_devices)
                "eth0" 65536 1 1000 [Enter; Enter; Exit; Enter] world0) as W.
  split; [reflexivity|]. split; [reflexivity|].
  split; [exact (proj1 W) | exact (proj2 (proj2 W))].
Defined.

End SessionFacts.

(** ** Packet delivery *)

Module DispatchFacts.
Import Native WinPcap Notions LoopFacts.

Lemma callbacks_app l1 l2 : callbacks (l1 ++ l2) = callbacks l1 ++ callbacks l2.
Proof. unfold callbacks. apply flat_map_app. Qed.

Lemma string_at_length m ptr n :
  List.length (string_at m ptr n) = Z.to_nat n.
Proof. unfold string_at. now rewrite length_map, length_seq. Qed.

Lemma deliveries_length m frames :
  List.length (deliveries m frames) = List.length frames.
Proof.
  revert m. induction frames as [|[[hdr addr] captured] frames IH];
    intros m; simpl; [reflexivity | now rewrite IH].
Qed.

Lemma deliveries_headers m frames :
  map fst (deliveries m frames) = map (fun fr : frame => fst (fst fr)) frames.
Proof.
  revert m. induction frames as [|[[hdr addr] captured] frames IH];
    intros m; simpl; [reflexivity | now rewrite IH].
Qed.

(** One delivery to a function or bound method that does not call
    [stop]. *)
Lemma wrapper_accepted s cb f param hdr ptr w :
  accepted cb f -> never_stops f ->
  let w' := _callback_wrapper (with_callback s cb) param hdr ptr w in
  mem w' = mem w
  /\ break_flag w' = break_flag w
  /\ callbacks (log w')
     = callbacks (log w) ++ [(hdr, string_at (mem w) ptr (len hdr))].
Proof.
  intros [-> | ->] Hns; unfold _callback_wrapper, packet_handler; simpl;
    rewrite Hns; destruct (raises _); simpl;
    repeat rewrite callbacks_app; simpl;
    repeat rewrite app_nil_r; repeat split; reflexivity.
Qed.

(** One delivery to anything else. *)
Lemma wrapper_rejected s cb param hdr ptr w :
  isfunction cb = false -> ismethod cb = false ->
  packet_handler (with_callback s cb) param hdr ptr w
  = (Raise AssertionError, w)
  /\ _callback_wrapper (with_callback s cb) param hdr ptr w
     = emit (Ignored_exception AssertionError) w.
Proof.
  intros Hf Hm. unfold _callback_wrapper, packet_handler. simpl.
  rewrite Hf, Hm. simpl. split; reflexivity.
Qed.

Lemma loop_counts s cb f h cnt rest :
  accepted cb f -> never_stops f -> 0 < cnt ->
  forall frames delivered w,
    break_flag w = false ->
    delivered + Z.of_nat (List.length frames) = cnt ->
    0 <= delivered ->
    let res := pcap_loop h (_callback_wrapper (with_callback s cb)) cnt
                         delivered (to_wire frames ++ rest) w in
    fst (fst res) = Some 0
    /\ snd (fst res) = rest
    /\ callbacks (log (snd res))
       = callbacks (log w) ++ deliveries (mem w) frames.
Proof.
  intros Hcb Hns Hcnt frames.
  induction frames as [|[[hdr addr] captured] frames IH];
    intros delivered w Hb Hd H0; rewrite pcap_loop_eq.
  - simpl in Hd.
    replace ((0 <? cnt) && (cnt <=? delivered)) with true
      by (symmetry; apply andb_true_iff; split;
          [apply Z.ltb_lt | apply Z.leb_le]; lia).
    simpl. now rewrite app_nil_r.
  - simpl List.length in Hd.
    replace ((0 <? cnt) && (cnt <=? delivered)) with false
      by (symmetry; apply andb_false_iff; right; apply Z.leb_gt; lia).
    rewrite Hb. simpl to_wire. cbn iota beta.
    simpl app.
    destruct (wrapper_accepted s cb f NULL hdr addr
                (set_mem (store (mem w) addr captured) w) Hcb Hns)
      as [Hm [Hf Hc]].
    simpl in Hm, Hf, Hc.
    specialize (IH (delivered + 1)
                   (_callback_wrapper (with_callback s cb) NULL hdr addr
                      (set_mem (store (mem w) addr captured) w))).
    destruct IH as [I1 [I2 I3]]; [now rewrite Hf | lia | lia |].
    repeat split; [exact I1 | exact I2 |].
    rewrite I3, Hc, Hm. simpl. now rewrite <- app_assoc.
Qed.

Lemma loop_unbounded s cb f h cnt :
  accepted cb f -> never_stops f -> cnt <= 0 ->
  forall frames delivered w,
    break_flag w = false ->
    let res := pcap_loop h (_callback_wrapper (with_callback s cb)) cnt
                         delivered (to_wire frames) w in
    fst (fst res) = None
    /\ callbacks (log (snd res))
       = callbacks (log w) ++ deliveries (mem w) frames.
Proof.
  intros Hcb Hns Hcnt frames.
  induction frames as [|[[hdr addr] captured] frames IH];
    intros delivered w Hb; rewrite pcap_loop_eq;
    replace (0 <? cnt) with false by (symmetry; apply Z.ltb_ge; lia);
    simpl andb; cbn iota; rewrite Hb.
  - simpl. now rewrite app_nil_r.
  - simpl to_wire. cbn iota beta.
    destruct (wrapper_accepted s cb f NULL hdr addr
                (set_mem (store (mem w) addr captured) w) Hcb Hns)
      as [Hm [Hf Hc]].
    simpl in Hm, Hf, Hc.
    specialize (IH (delivered + 1)
                   (_callback_wrapper (with_callback s cb) NULL hdr addr
                      (set_mem (store (mem w) addr captured) w))).
    destruct IH as [I1 I2]; [now rewrite Hf |].
    split; [exact I1 |].
    rewrite I2, Hc, Hm. simpl. now rewrite <- app_assoc.
Qed.

(** A delivery raises the break flag only if the callback calls
    [stop]. *)
Lemma wrapper_break s cb f param hdr ptr w :
  accepted cb f ->
  break_flag (_callback_wrapper (with_callback s cb) param hdr ptr w) = true ->
  break_flag w = true \/ exists hd data, calls_stop (f hd data) = true.
Proof.
  intros [-> | ->]; unfold _callback_wrapper, packet_handler; simpl;
    destruct (calls_stop _) eqn:Hs;
    try (intros _; right; eauto; fail);
    destruct (raises _); simpl; intros Hb; now left.
Qed.

Lemma loop_returns_for_a_reason s cb f h cnt :
  accepted cb f -> cnt <= 0 ->
  forall wire delivered w,
    fst (fst (pcap_loop h (_callback_wrapper (with_callback s cb)) cnt
                        delivered wire w)) <> None ->
    break_flag w = true
    \/ In StopRequest wire
    \/ In DeviceError wire
    \/ exists hd data, calls_stop (f hd data) = true.
Proof.
  intros Hcb Hcnt wire.
  induction wire as [|ev wire IH]; intros delivered w; rewrite pcap_loop_eq;
    replace (0 <? cnt) with false by (symmetry; apply Z.ltb_ge; lia);
    simpl andb; cbn iota; destruct (break_flag w) eqn:Hb;
    try (intros _; now left).
  - simpl. congruence.
  - destruct ev as [hdr addr captured| |].
    + intros Hr. apply IH in Hr.
      destruct Hr as [Hr | [Hr | [Hr | Hr]]].
      * apply (wrapper_break s cb f) in Hr; [|exact Hcb].
        destruct Hr as [Hr | Hr]; [simpl in Hr; congruence | now do 3 right].
      * right. left. now right.
      * right. right. left. now right.
      * now do 3 right.
    + intros _. right. left. now left.
    + intros _. right. right. left. now left.
Qed.

Lemma loop_rejected s cb h cnt :
  isfunction cb = false -> ismethod cb = false ->
  forall wire delivered w,
    let res := pcap_loop h (_callback_wrapper (with_callback s cb)) cnt
                         delivered wire w in
    callbacks (log (snd res)) = callbacks (log w)
    /\ exists tail, log (snd res) = log w ++ tail.
Proof.
  intros Hf Hm wire.
  induction wire as [|ev wire IH]; intros delivered w; rewrite pcap_loop_eq;
    destruct ((0 <? cnt) && (cnt <=? delivered));
    try (split; [reflexivity | exists []; now rewrite app_nil_r]);
    destruct (break_flag w);
    try (split; [reflexivity | exists []; now rewrite app_nil_r]).
  destruct ev as [hdr addr captured| |];
    try (split; [reflexivity | exists []; now rewrite app_nil_r]).
  - rewrite (proj2 (wrapper_rejected s cb NULL hdr addr _ Hf Hm)).
    destruct (IH (delivered + 1)
                 (emit (Ignored_exception AssertionError)
                       (set_mem (store (mem w) addr captured) w)))
      as [I1 [tail I2]].
    split.
    + rewrite I1. simpl. rewrite callbacks_app. simpl. now rewrite app_nil_r.
    + exists (Ignored_exception AssertionError :: tail).
      rewrite I2. simpl. now rewrite <- app_assoc.
  - destruct (IH delivered (pcap_breakloop (Some h) w)) as [I1 [tail I2]].
    split.
    + rewrite I1. simpl. rewrite callbacks_app. simpl. now rewrite app_nil_r.
    + exists (Native_breakloop (Some h) :: tail).
      rewrite I2. simpl. now rewrite <- app_assoc.
Qed.

(** C1: the callback receives a copy of [len] bytes read at the packet
    pointer, [len] being the length of the frame on the wire.  For a
    frame of 4 bytes of which 2 were captured it receives 4 bytes: the
    2 captured ones and 2 that were in memory behind them. *)
Theorem handler_copies_wire_length :
  (forall s f param hdr ptr w,
      callbacks (log (snd (packet_handler (with_callback s (PyFunction f))
                                          param hdr ptr w)))
      = callbacks (log w) ++ [(hdr, string_at (mem w) ptr (len hdr))])
  /\ (forall m ptr hdr,
         List.length (string_at m ptr (len hdr)) = Z.to_nat (len hdr))
  /\ (let s := with_handle (new "eth0") 7 "" in
      let wire := [Frame Examples.truncated_hdr 100 [x01; x02]] in
      caplen Examples.truncated_hdr = 2
      /\ callbacks (log (snd (run s (PyFunction Examples.quiet) 1 wire
                                  Examples.stale_world)))
         = [(Examples.truncated_hdr, [x01; x02; xaa; xaa])]).
Proof.
  split; [|split].
  - intros s f param hdr ptr w. unfold packet_handler. simpl.
    destruct (calls_stop _), (raises _), (_handle s); simpl;
      repeat rewrite callbacks_app; simpl; now repeat rewrite app_nil_r.
  - intros m ptr hdr. apply string_at_length.
  - split; reflexivity.
Qed.

(** C8: on an open session with no stop pending, with a callback
    that is a plain function or a bound method and does not itself call
    [stop], and with a limit that fits a C int: [run] with a positive
    limit over a wire that delivers at least [limit] frames invokes the
    callback exactly [limit] times, on the frames in arrival order, and
    returns without error, leaving the later frames unread; with a
    limit of zero or less it delivers every frame and does not return,
    and it returns only after a stop request arrived or was made by the
    callback, or the device failed. *)
Theorem run_delivers_limit :
  forall s h err cb f limit frames rest w,
    accepted cb f ->
    break_flag w = false ->
    fits_c_int limit ->
    let session := with_handle s h err in
    (never_stops f ->
     0 < limit ->
     Z.of_nat (List.length frames) = limit ->
     let '(r, _, unread, w') := run session cb limit (to_wire frames ++ rest) w in
     r = Some (Return tt)
     /\ unread = rest
     /\ callbacks (log w') = callbacks (log w) ++ deliveries (mem w) frames
     /\ map fst (deliveries (mem w) frames)
        = map (fun fr : frame => fst (fst fr)) frames
     /\ Z.of_nat (List.length (deliveries (mem w) frames)) = limit)
    /\ (never_stops f ->
        limit <= 0 ->
        let '(r, _, _, w') := run session cb limit (to_wire frames) w in
        r = None
        /\ callbacks (log w') = callbacks (log w) ++ deliveries (mem w) frames)
    /\ (limit <= 0 ->
        forall wire,
          fst (fst (fst (run session cb limit wire w))) <> None ->
          In StopRequest wire
          \/ In DeviceError wire
          \/ exists hd data, calls_stop (f hd data) = true).
Proof.
  intros s h err cb f limit frames rest w Hcb Hb _ session.
  split; [|split].
  - intros Hns Hpos Hlen. unfold run. simpl _handle. cbv iota.
    pose proof (loop_counts session cb f h limit rest Hcb Hns Hpos frames 0
                  (emit (Native_loop h limit) w) Hb) as L.
    simpl in L. destruct L as [L1 [L2 L3]]; [lia | lia |].
    destruct (pcap_loop _ _ _ _ _ _) as [[st unread] w'].
    simpl in L1, L2, L3. subst st unread.
    repeat split.
    + rewrite L3, callbacks_app. simpl. now rewrite app_nil_r.
    + apply deliveries_headers.
    + now rewrite deliveries_length.
  - intros Hns Hle. unfold run. simpl _handle. cbv iota.
    pose proof (loop_unbounded session cb f h limit Hcb Hns Hle frames 0
                  (emit (Native_loop h limit) w) Hb) as L.
    simpl in L. destruct L as [L1 L2].
    destruct (pcap_loop _ _ _ _ _ _) as [[st unread] w'].
    simpl in L1, L2. subst st. split; [reflexivity|].
    rewrite L2, callbacks_app. simpl. now rewrite app_nil_r.
  - intros Hle wire. unfold run. simpl _handle. cbv iota.
    pose proof (loop_returns_for_a_reason session cb f h limit Hcb Hle wire 0
                  (emit (Native_loop h limit) w)) as L.
    destruct (pcap_loop _ _ _ _ _ _) as [[st unread] w'].
    simpl in *. intros Hr.
    destruct L as [L | L]; [destruct st; congruence | congruence | exact L].
Qed.

Lemma run_delivers_limit_witness :
  let '(r, _, unread, w') :=
    run (with_handle (new "eth0") 7 "") (PyFunction Examples.quiet) 3
        Examples.five_frames world0 in
  r = Some (Return tt)
  /\ unread = [Frame (Examples.hdr_of 4) 100 [x04];
               Frame (Examples.hdr_of 5) 100 [x05]]
  /\ callbacks (log w')
     = [(Examples.hdr_of 1, [x01]); (Examples.hdr_of 2, [x02]);
        (Examples.hdr_of 3, [x03])].
Proof.
  assert (Hcb : accepted (PyFunction Examples.quiet) Examples.quiet)
    by (left; reflexivity).
  assert (Hns : never_stops Examples.quiet) by (intros hdr data; reflexivity).
  assert (Hpos : 0 < 3) by lia.
  assert (Hfit : fits_c_int 3) by (unfold fits_c_int; lia).
  pose proof (proj1 (run_delivers_limit (new "eth0") 7 "" _ _ 3
     [(Examples.hdr_of 1, 100, [x01]); (Examples.hdr_of 2, 100, [x02]);
      (Examples.hdr_of 3, 100, [x03])]
     [Frame (Examples.hdr_of 4) 100 [x04]; Frame (Examples.hdr_of 5) 100 [x05]]
     world0 Hcb eq_refl Hfit) Hns Hpos eq_refl) as W.
  cbv in W. cbv. destruct W as [W1 [W2 [W3 _]]].
  repeat split; assumption.
Defined.

(** C8, as first stated, for every callback and every open session:
    an object that is merely callable, or [None], is never invoked; a
    stop made before [run] makes the loop return before the first
    frame; a callback that calls [stop] receives one frame.  In each
    case [run] returns without error after fewer than [limit]
    invocations although five frames arrive. *)
Lemma run_delivers_fewer_than_limit :
  let session := with_handle (new "eth0") 7 "" in
  let invocations (cb : py_object) (w : World) :=
    let '(r, _, _, w') := run session cb 3 Examples.five_frames w in
    (r, List.length (callbacks (log w'))) in
  invocations (PyCallable Examples.quiet) world0 = (Some (Return tt), 0%nat)
  /\ invocations PyNone world0 = (Some (Return tt), 0%nat)
  /\ invocations (PyFunction Examples.quiet) (snd (stop session world0))
     = (Some (Return tt), 0%nat)
  /\ invocations (PyFunction Scenarios.stopper) world0
     = (Some (Return tt), 1%nat).
Proof. repeat split. Qed.

(** C10: when the callback given to [run] is neither a plain function
    nor a bound method (the default [None], or an object that is merely
    callable), the handler's assertion fails at the first frame
    delivered, and the callback is not invoked then or later. *)
Theorem handler_rejects_other_callables :
  forall s h err cb limit hdr addr captured wire w,
    isfunction cb = false ->
    ismethod cb = false ->
    break_flag w = false ->
    let '(_, session, _, w') :=
      run (with_handle s h err) cb limit (Frame hdr addr captured :: wire) w in
    (forall param header pkt_pointer x,
        packet_handler session param header pkt_pointer x
        = (Raise AssertionError, x))
    /\ (exists tail,
           log w' = log w ++ [Native_loop h limit;
                              Ignored_exception AssertionError] ++ tail)
    /\ callbacks (log w') = callbacks (log w).
Proof.
  intros s h err cb limit hdr addr captured wire w Hf Hm Hb.
  unfold run. simpl _handle. cbv iota.
  rewrite pcap_loop_eq.
  replace ((0 <? limit) && (limit <=? 0)) with false
    by (symmetry; destruct (0 <? limit) eqn:E; [|reflexivity];
        apply Z.ltb_lt in E; simpl; apply Z.leb_gt; lia).
  simpl break_flag. rewrite Hb.
  rewrite (proj2 (wrapper_rejected (with_handle s h err) cb NULL hdr addr _
                    Hf Hm)).
  pose proof (loop_rejected (with_handle s h err) cb h limit Hf Hm wire (0 + 1)
    (emit (Ignored_exception AssertionError)
       (set_mem (store (mem (emit (Native_loop h limit) w)) addr captured)
                (emit (Native_loop h limit) w)))) as L.
  destruct (pcap_loop _ _ _ _ _ _) as [[st unread] w'].
  simpl in L. destruct L as [L1 [tail L2]].
  split; [|split].
  - intros param header pkt_pointer x.
    exact (proj1 (wrapper_rejected (with_handle s h err) cb param header
                    pkt_pointer x Hf Hm)).
  - exists tail. rewrite L2. repeat rewrite <- app_assoc. reflexivity.
  - rewrite L1. repeat rewrite callbacks_app. simpl.
    now repeat rewrite app_nil_r.
Qed.

Lemma handler_rejects_other_callables_witness :
  let '(_, session, _, w') :=
    run (with_handle (new "eth0") 7 "") PyNone 0
        (Frame (Examples.hdr_of 1) 100 [x01] :: []) world0 in
  (forall param header pkt_pointer x,
      packet_handler session param header pkt_pointer x
      = (Raise AssertionError, x))
  /\ (exists tail,
         log w' = log world0 ++ [Native_loop 7 0;
                                 Ignored_exception AssertionError] ++ tail)
  /\ callbacks (log w') = callbacks (log world0).
Proof.
  exact (handler_rejects_other_callables (new "eth0") 7 "" PyNone 0
           (Examples.hdr_of 1) 100 [x01] [] world0 eq_refl eq_refl eq_refl).
Defined.

End DispatchFacts.

(** ** The device listing *)

Module DirectoryFacts.
Import WinPcapDevices Notions Vocabulary TextFacts DevicesFacts.

Lemma lookup_set_same k v d : lookup k (dict_set k v d) = Some v.
Proof.
  induction d as [|[k' v'] d IH]; simpl.
  - now rewrite text_eqb_refl.
  - destruct (text_eqb k' k) eqn:E; simpl; rewrite E; [reflexivity | exact IH].
Qed.

Lemma lookup_set_other k k0 v d :
  k0 <> k -> lookup k (dict_set k0 v d) = lookup k d.
Proof.
  intros Hne. apply text_eqb_neq in Hne.
  induction d as [|[k' v'] d IH]; simpl.
  - now rewrite Hne.
  - destruct (text_eqb k' k0) eqn:E; simpl.
    + apply text_eqb_eq in E. subst k'. now rewrite Hne.
    + destruct (text_eqb k' k); [reflexivity | exact IH].
Qed.

Lemma dict_set_mem k k0 v d :
  In k (map fst (dict_set k0 v d)) <-> k = k0 \/ In k (map fst d).
Proof.
  induction d as [|[k' v'] d IH]; simpl.
  - intuition.
  - destruct (text_eqb k' k0) eqn:E; simpl.
    + apply text_eqb_eq in E. subst k'. intuition.
    + rewrite IH. intuition.
Qed.

Lemma dict_set_nodup k v d :
  NoDup (map fst d) -> NoDup (map fst (dict_set k v d)).
Proof.
  induction d as [|[k' v'] d IH]; simpl; intros Hnd.
  - constructor; [intros [] | constructor].
  - inversion Hnd as [|? ? Hout Hrest]; subst.
    destruct (text_eqb k' k) eqn:E; simpl.
    + now constructor.
    + constructor; [|now apply IH].
      rewrite dict_set_mem. intros [Heq | Hin]; [|contradiction].
      apply text_eqb_neq in E. congruence.
Qed.

Lemma fill_nodup devs : forall res d,
  NoDup (map fst res) -> fill res devs = Return d -> NoDup (map fst d).
Proof.
  induction devs as [|x devs IH]; simpl; intros res d Hnd Hfill.
  - now injection Hfill as <-.
  - destruct (Utf8.decode (description x)) as [v|]; [|discriminate].
    destruct (Utf8.decode (name x)) as [k|]; [|discriminate].
    apply (IH _ d (dict_set_nodup k v res Hnd) Hfill).
Qed.

Lemma fill_lookup k devs : forall res d,
  fill res devs = Return d ->
  lookup k d
  = match last_description k devs with
    | Some v => Some v
    | None => lookup k res
    end.
Proof.
  induction devs as [|x devs IH]; simpl; intros res d Hfill.
  - now injection Hfill as <-.
  - unfold decoded.
    destruct (Utf8.decode (description x)) as [v|]; [|discriminate].
    destruct (Utf8.decode (name x)) as [k0|]; [|discriminate].
    rewrite (IH _ d Hfill).
    destruct (last_description k devs); [reflexivity|].
    destruct (text_eqb k0 k) eqn:E.
    + apply text_eqb_eq in E. subst k0. apply lookup_set_same.
    + apply text_eqb_neq in E. now apply lookup_set_other.
Qed.

Lemma fill_keys k devs : forall res d,
  fill res devs = Return d ->
  (In k (map fst d) <-> In k (map fst res) \/ In k (decoded_names devs)).
Proof.
  induction devs as [|x devs IH]; simpl; intros res d Hfill.
  - injection Hfill as <-. intuition.
  - destruct (Utf8.decode (description x)) as [v|]; [|discriminate].
    destruct (Utf8.decode (name x)) as [k0|]; [|discriminate].
    rewrite (IH _ d Hfill), dict_set_mem. simpl. intuition.
Qed.

Lemma fill_total devs : forall res,
  Forall decodable devs -> exists d, fill res devs = Return d.
Proof.
  induction devs as [|x devs IH]; simpl; intros res Hdec; [now exists res|].
  inversion Hdec as [|? ? Hx Hrest]; subst.
  unfold decodable, decoded in Hx.
  destruct (Utf8.decode (name x)) as [k|]; [|contradiction].
  destruct (Utf8.decode (description x)) as [v|]; [|contradiction].
  now apply IH.
Qed.

Lemma fill_raises devs : forall res,
  ~ Forall decodable devs -> fill res devs = Raise UnicodeDecodeError.
Proof.
  induction devs as [|x devs IH]; simpl; intros res Hnot.
  - exfalso. apply Hnot. constructor.
  - destruct (Utf8.decode (description x)) as [v|] eqn:Dv; [|reflexivity].
    destruct (Utf8.decode (name x)) as [k|] eqn:Dk; [|reflexivity].
    apply IH. intros Hall. apply Hnot. constructor; [|exact Hall].
    unfold decodable, decoded. rewrite Dk, Dv. discriminate.
Qed.

Lemma list_devices_ok lib w status devs err :
  findalldevs lib = (status, devs, err) -> status <> -1 ->
  list_devices lib w
  = (fill [] devs,
     set_devlist false (emit Native_freealldevs
                          (set_devlist true (emit Native_findalldevs w)))).
Proof.
  intros Hf Hs. unfold list_devices, __enter__. simpl.
  rewrite Hf. apply Z.eqb_neq in Hs. rewrite Hs.
  unfold pcap_interface_iterator. simpl. now rewrite follow_links_all.
Qed.

Lemma list_devices_failed lib w devs err :
  findalldevs lib = (-1, devs, err) ->
  list_devices lib w
  = (Raise (PcapFindDevicesException
              ("Error in WinPcapDevices: "
               ++ PyBytes.repr (PyBytes.value err) ++ newline)%string),
     emit Native_findalldevs w).
Proof.
  intros Hf. unfold list_devices, __enter__. simpl. now rewrite Hf.
Qed.

(** X1: When the native enumeration reports -1, the listing and the find
    operation raise [PcapFindDevicesException]; its message is the
    fixed prefix, the content of the error buffer up to its first NUL
    as the interpreter shows a bytes object, and a newline.  The
    enumeration is the only native call made, and nothing is freed. *)
Theorem enumeration_failure_is_raised :
  forall os lib glob w devs err,
    findalldevs lib = (-1, devs, err) ->
    let failure :=
      PcapFindDevicesException
        ("Error in WinPcapDevices: "
         ++ PyBytes.repr (PyBytes.value err) ++ newline)%string in
    fst (list_devices lib w) = Raise failure
    /\ fst (get_matching_device os lib glob w) = Raise failure
    /\ log (snd (get_matching_device os lib glob w))
       = log w ++ [Native_findalldevs]
    /\ devlist_allocated (snd (get_matching_device os lib glob w))
       = devlist_allocated w.
Proof.
  intros os lib glob w devs err Hf failure.
  unfold get_matching_device. rewrite (list_devices_failed _ _ _ _ Hf).
  repeat split.
Qed.

Lemma enumeration_failure_is_raised_witness :
  fst (list_devices Scenarios.blind_lib world0)
  = Raise (PcapFindDevicesException
             ("Error in WinPcapDevices: b'no adapters'" ++ newline)%string)
  /\ log (snd (get_matching_device Fnmatch.Posix Scenarios.blind_lib
                                   (text_of "*") world0))
     = [Native_findalldevs].
Proof.
  pose proof (enumeration_failure_is_raised Fnmatch.Posix Scenarios.blind_lib
                (text_of "*") world0 [] "no adapters" eq_refl) as W.
  split; [exact (proj1 W) | exact (proj1 (proj2 (proj2 W)))].
Defined.

(** X2: A successful listing acquires the native list once and frees it
    once before it returns, whatever the list holds: the two calls are
    all it adds to the log, and the rest of the world is as before. *)
Theorem listing_frees_what_it_acquires :
  forall lib w status devs err,
    findalldevs lib = (status, devs, err) ->
    status <> -1 ->
    let w' := snd (list_devices lib w) in
    log w' = log w ++ [Native_findalldevs; Native_freealldevs]
    /\ devlist_allocated w' = false
    /\ open_handles w' = open_handles w
    /\ break_flag w' = break_flag w.
Proof.
  intros lib w status devs err Hf Hs w'. subst w'.
  rewrite (list_devices_ok _ _ _ _ _ Hf Hs). simpl.
  rewrite <- app_assoc. repeat split.
Qed.

Lemma listing_frees_what_it_acquires_witness :
  log (snd (list_devices (Examples.good_lib Examples.repeated_name) world0))
  = [Native_findalldevs; Native_freealldevs]
  /\ devlist_allocated
       (snd (list_devices (Examples.good_lib Examples.repeated_name) world0))
     = false.
Proof.
  assert (Hs : 0 <> -1) by lia.
  pose proof (listing_frees_what_it_acquires
                (Examples.good_lib Examples.repeated_name) world0 0
                Examples.repeated_name "" eq_refl Hs) as W.
  split; [exact (proj1 W) | exact (proj1 (proj2 W))].
Defined.

(** X3: When every name and description is well-formed UTF-8 the
    listing has one entry per device name: its keys are pairwise
    distinct and are exactly the decoded names the enumeration
    reported, also when a name is reported more than once.  When some
    name or description is not UTF-8 the listing raises
    [UnicodeDecodeError]. *)
Theorem listing_keys_are_the_names :
  forall lib w status devs err,
    findalldevs lib = (status, devs, err) ->
    status <> -1 ->
    (Forall decodable devs ->
     exists res,
       fst (list_devices lib w) = Return res
       /\ NoDup (map fst res)
       /\ forall k, In k (map fst res) <-> In k (decoded_names devs))
    /\ (~ Forall decodable devs ->
        fst (list_devices lib w) = Raise UnicodeDecodeError).
Proof.
  intros lib w status devs err Hf Hs.
  rewrite (list_devices_ok _ _ _ _ _ Hf Hs). simpl. split.
  - intros Hdec. destruct (fill_total devs [] Hdec) as [d Hfill].
    exists d. split; [exact Hfill|]. split.
    + apply (fill_nodup devs [] d); [constructor | exact Hfill].
    + intros k. rewrite (fill_keys k devs [] d Hfill). simpl. intuition.
  - intros Hnot. now apply fill_raises.
Qed.

Lemma listing_keys_are_the_names_witness :
  (exists res,
     fst (list_devices (Examples.good_lib Examples.repeated_name) world0)
     = Return res
     /\ NoDup (map fst res)
     /\ forall k, In k (map fst res)
                  <-> In k (decoded_names Examples.repeated_name))
  /\ fst (list_devices (Examples.good_lib Examples.undecodable) world0)
     = Raise UnicodeDecodeError.
Proof.
  assert (Hs : 0 <> -1) by lia.
  assert (Hdec : Forall decodable Examples.repeated_name)
    by (repeat constructor; discriminate).
  assert (Hnot : ~ Forall decodable Examples.undecodable).
  { intros H. inversion H as [|? ? Hx _]. apply Hx. reflexivity. }
  split.
  - exact (proj1 (listing_keys_are_the_names
                    (Examples.good_lib Examples.repeated_name) world0 0
                    Examples.repeated_name "" eq_refl Hs) Hdec).
  - exact (proj2 (listing_keys_are_the_names
                    (Examples.good_lib Examples.undecodable) world0 0
                    Examples.undecodable "" eq_refl Hs) Hnot).
Defined.

(** X4: Last write wins: when every name and description is well-formed
    UTF-8, the description listed under a name is the decoded one of
    the last device reported with that name, and a name that was not
    reported is not listed. *)
Theorem listing_keeps_last_description :
  forall lib w status devs err,
    findalldevs lib = (status, devs, err) ->
    status <> -1 ->
    Forall decodable devs ->
    exists res,
      fst (list_devices lib w) = Return res
      /\ forall k, lookup k res = last_description k devs.
Proof.
  intros lib w status devs err Hf Hs Hdec.
  rewrite (list_devices_ok _ _ _ _ _ Hf Hs). simpl.
  destruct (fill_total devs [] Hdec) as [d Hfill].
  exists d. split; [exact Hfill|].
  intros k. rewrite (fill_lookup k devs [] d Hfill).
  now destruct (last_description k devs).
Qed.

Lemma listing_keeps_last_description_witness :
  exists res,
    fst (list_devices (Examples.good_lib Examples.repeated_name) world0)
    = Return res
    /\ lookup (text_of "eth0") res = Some (text_of "Loopback")
    /\ lookup (text_of "wlan0") res = Some (text_of "Wi-Fi 6")
    /\ lookup (text_of "lo") res = None.
Proof.
  assert (Hs : 0 <> -1) by lia.
  assert (Hdec : Forall decodable Examples.repeated_name)
    by (repeat constructor; discriminate).
  destruct (listing_keeps_last_description
              (Examples.good_lib Examples.repeated_name) world0 0
              Examples.repeated_name "" eq_refl Hs Hdec) as [res [Hr Hl]].
  exists res. split; [exact Hr|].
  repeat split; rewrite Hl; reflexivity.
Defined.

Lemma first_item_sound os glob d :
  match first_item os glob d with
  | (Some n, Some v) => In (n, v) d /\ Fnmatch.fnmatch os v glob = true
  | (None, None) => forall n v, In (n, v) d -> Fnmatch.fnmatch os v glob = false
  | _ => False
  end.
Proof.
  induction d as [|[n v] d IH]; simpl.
  - intros n v [].
  - destruct (Fnmatch.fnmatch os v glob) eqn:E.
    + split; [now left | exact E].
    + destruct (first_item os glob d) as [[n'|] [v'|]]; try exact IH.
      * destruct IH as [Hin Hm]. split; [now right | exact Hm].
      * intros n0 v0 [Heq | Hin]; [congruence | exact (IH n0 v0 Hin)].
Qed.

Lemma lookup_in n v d : NoDup (map fst d) -> In (n, v) d -> lookup n d = Some v.
Proof.
  induction d as [|[k x] d IH]; simpl; intros Hnd Hin; [destruct Hin|].
  inversion Hnd as [|? ? Hk Hnd']; subst.
  destruct Hin as [Heq | Hin].
  - injection Heq as -> ->. now rewrite text_eqb_refl.
  - destruct (text_eqb k n) eqn:E; [|now apply IH].
    apply text_eqb_eq in E. subst k.
    exfalso. apply Hk. apply in_map_iff. exists (n, v). now split.
Qed.

Lemma in_lookup n v d : lookup n d = Some v -> In (n, v) d.
Proof.
  induction d as [|[k x] d IH]; simpl; [discriminate|].
  destruct (text_eqb k n) eqn:E.
  - apply text_eqb_eq in E. subst k. intros H. injection H as ->. now left.
  - intros H. right. now apply IH.
Qed.

(** X5: For every device list whose names and descriptions are
    well-formed UTF-8, repeated names included: what the find
    operation returns is either a name together with the description
    listed under it, and that description matches the pattern, or the
    pair (None, None), and then no listed description matches.  It
    never returns a name without a description. *)
Theorem find_returns_a_listed_match :
  forall os lib glob w status devs err,
    findalldevs lib = (status, devs, err) ->
    status <> -1 ->
    Forall decodable devs ->
    match fst (get_matching_device os lib glob w) with
    | Return (Some n, Some v) =>
        last_description n devs = Some v /\ Fnmatch.fnmatch os v glob = true
    | Return (None, None) =>
        forall n v, last_description n devs = Some v ->
                    Fnmatch.fnmatch os v glob = false
    | _ => False
    end.
Proof.
  intros os lib glob w status devs err Hf Hs Hdec.
  unfold get_matching_device. rewrite (list_devices_ok _ _ _ _ _ Hf Hs).
  destruct (fill_total devs [] Hdec) as [d Hfill]. rewrite Hfill.
  simpl. pose proof (first_item_sound os glob d) as S.
  assert (Hnd : NoDup (map fst d))
    by (apply (fill_nodup devs [] d); [constructor | exact Hfill]).
  assert (Hl : forall k, lookup k d = last_description k devs).
  { intros k. rewrite (fill_lookup k devs [] d Hfill).
    now destruct (last_description k devs). }
  destruct (first_item os glob d) as [[n|] [v|]]; try exact S.
  - destruct S as [Hin Hm]. split; [|exact Hm].
    rewrite <- Hl. now apply lookup_in.
  - intros n v Hlast. apply (S n v). apply in_lookup. now rewrite Hl.
Qed.

Lemma find_returns_a_listed_match_witness :
  fst (get_matching_device Fnmatch.Posix
         (Examples.good_lib Examples.repeated_name) (text_of "Loop*") world0)
  = Return (Some (text_of "eth0"), Some (text_of "Loopback"))
  /\ last_description (text_of "eth0") Examples.repeated_name
     = Some (text_of "Loopback").
Proof.
  assert (Hs : 0 <> -1) by lia.
  assert (Hdec : Forall decodable Examples.repeated_name)
    by (repeat constructor; discriminate).
  pose proof (find_returns_a_listed_match Fnmatch.Posix
                (Examples.good_lib Examples.repeated_name) (text_of "Loop*")
                world0 0 Examples.repeated_name "" eq_refl Hs Hdec) as W.
  cbv in W. split; [reflexivity | exact (proj1 W)].
Defined.

(** X6: Inside the scope the iteration yields every record of the native
    list once, in the list's order; on an object that was never
    entered it raises [PcapFindDevicesException] with the message that
    asks for the with statement. *)
Theorem iteration_follows_the_native_list :
  forall lib w status devs err,
    findalldevs lib = (status, devs, err) ->
    status <> -1 ->
    pcap_interface_iterator __init__
    = Raise (PcapFindDevicesException
               "WinPcapDevices guard not called, use 'with statement'")
    /\ pcap_interface_iterator (snd (fst (__enter__ lib __init__ w)))
       = Return devs.
Proof.
  intros lib w status devs err Hf Hs. split; [reflexivity|].
  unfold __enter__. simpl. rewrite Hf. apply Z.eqb_neq in Hs. rewrite Hs.
  unfold pcap_interface_iterator. simpl. now rewrite follow_links_all.
Qed.

Lemma iteration_follows_the_native_list_witness :
  pcap_interface_iterator
    (snd (fst (__enter__ (Examples.good_lib Examples.three_devices)
                         __init__ world0)))
  = Return Examples.three_devices.
Proof.
  assert (Hs : 0 <> -1) by lia.
  exact (proj2 (iteration_follows_the_native_list
                  (Examples.good_lib Examples.three_devices) world0 0
                  Examples.three_devices "" eq_refl Hs)).
Defined.

(** X7: A [WinPcapDevices] object serves one scope: once it was entered,
    entering it again, before or after its exit, fails the guard with
    [AssertionError] and makes no native call. *)
Theorem directory_enters_once :
  forall lib lib' w status devs err,
    findalldevs lib = (status, devs, err) ->
    status <> -1 ->
    let '(_, entered, w1) := __enter__ lib __init__ w in
    let '(_, exited, w2) := __exit__ entered w1 in
    __enter__ lib' entered w1 = (Raise AssertionError, entered, w1)
    /\ __enter__ lib' exited w2 = (Raise AssertionError, exited, w2).
Proof.
  intros lib lib' w status devs err Hf Hs.
  unfold __enter__ at 1. simpl. rewrite Hf. apply Z.eqb_neq in Hs. rewrite Hs.
  simpl. split; reflexivity.
Qed.

Lemma directory_enters_once_witness :
  let '(_, entered, w1) :=
    __enter__ (Examples.good_lib Examples.three_devices) __init__ world0 in
  let '(_, exited, w2) := __exit__ entered w1 in
  __enter__ (Examples.good_lib []) entered w1
  = (Raise AssertionError, entered, w1)
  /\ __enter__ (Examples.good_lib []) exited w2
     = (Raise AssertionError, exited, w2).
Proof.
  assert (Hs : 0 <> -1) by lia.
  exact (directory_enters_once (Examples.good_lib Examples.three_devices)
           (Examples.good_lib []) world0 0 Examples.three_devices ""
           eq_refl Hs).
Defined.

End DirectoryFacts.

(** ** A session without a handle, and repeated exits *)

Module GuardFacts.
Import Native WinPcap Notions Vocabulary SessionFacts.

Lemma unopened_step lib o s w :
  _handle s = None -> is_enter o = false ->
  let '(r, s', w') := step lib o s w in
  s' = s
  /\ turned_down (mk_moment o r s' w')
  /\ log w' = log w ++ (match o with
                         | Stop => [Native_breakloop None]
                         | _ => []
                         end).
Proof.
  intros Hh Ho. destruct o; try discriminate; simpl.
  - unfold __exit__. rewrite Hh. repeat split. now rewrite app_nil_r.
  - unfold stop. rewrite Hh. repeat split.
  - unfold send. rewrite Hh. repeat split. now rewrite app_nil_r.
  - unfold run. rewrite Hh. repeat split. now rewrite app_nil_r.
Qed.

Lemma unopened_exec lib ops : forall s w,
  _handle s = None -> forallb (fun o => negb (is_enter o)) ops = true ->
  Forall (fun m => session m = s /\ turned_down m) (exec lib ops s w)
  /\ log (final (exec lib ops s w) w)
     = log w ++ repeat (Native_breakloop None) (count_stops ops).
Proof.
  induction ops as [|o ops IH]; intros s w Hh Hops.
  - simpl. split; [constructor | now rewrite app_nil_r].
  - simpl in Hops. apply andb_true_iff in Hops. destruct Hops as [Ho Hops].
    apply negb_true_iff in Ho.
    pose proof (unopened_step lib o s w Hh Ho) as St.
    rewrite exec_cons. destruct (step lib o s w) as [[r s'] w']. simpl.
    destruct St as [-> [Ht Hl]].
    destruct (IH s w' Hh Hops) as [I1 I2].
    split.
    + constructor; [split; [reflexivity | exact Ht] | exact I1].
    + rewrite I2, Hl. unfold count_stops. simpl.
      destruct o; simpl; rewrite <- app_assoc; reflexivity.
Qed.

(** X8: On a session that was never opened, any sequence of exit, stop,
    send and run leaves the session object as it was; every send and
    every run fails the guard with [AssertionError] and every exit and
    stop returns; no native open, close, send or loop call is made: the
    only calls are the breakloop calls of [stop], each with [None] as
    its handle. *)
Theorem unopened_session_makes_no_call :
  forall lib device snap_length promiscuous timeout ops w,
    forallb (fun o => negb (is_enter o)) ops = true ->
    let s := __init__ device snap_length promiscuous timeout in
    Forall (fun m => session m = s /\ turned_down m) (exec lib ops s w)
    /\ log (final (exec lib ops s w) w)
       = log w ++ repeat (Native_breakloop None) (count_stops ops).
Proof.
  intros lib device snap_length promiscuous timeout ops w Hops s.
  now apply unopened_exec.
Qed.

Lemma unopened_session_makes_no_call_witness :
  let ms := exec (Examples.good_lib []) [Send [x01]; Stop; Exit;
                                          Run (PyFunction Examples.quiet) 1
                                              Examples.five_frames]
                 (new "eth0") world0 in
  map outcome ms
  = [Some (Raise AssertionError); Some (Return tt); Some (Return tt);
     Some (Raise AssertionError)]
  /\ log (final ms world0) = [Native_breakloop None].
Proof.
  pose proof (unopened_session_makes_no_call (Examples.good_lib []) "eth0"
                65536 1 1000
                [Send [x01]; Stop; Exit;
                 Run (PyFunction Examples.quiet) 1 Examples.five_frames]
                world0 eq_refl) as W.
  split; [reflexivity | exact (proj2 W)].
Defined.

Lemma exits_close lib h : forall k s w,
  _handle s = Some h ->
  log (final (exec lib (repeat Exit k) s w) w)
  = log w ++ repeat (Native_close h) k
  /\ (0 < k -> released h (final (exec lib (repeat Exit k) s w) w))%nat.
Proof.
  induction k as [|k IH]; intros s w Hh.
  - simpl. split; [now rewrite app_nil_r | lia].
  - simpl repeat. rewrite exec_cons. simpl. unfold __exit__. rewrite Hh. simpl.
    destruct (IH s (pcap_close h w) Hh) as [I1 I2]. split.
    + rewrite I1. simpl. now rewrite <- app_assoc.
    + intros _. destruct k as [|k]; [|apply I2; lia].
      simpl. unfold released. simpl. apply released_remove.
Qed.

(** X9: [__exit__] does not remember that it closed the handle: on a
    session that was opened, every exit calls the native close on the
    handle again, so [k] exits make [k] close calls; after the first
    one the library no longer holds the handle. *)
Theorem every_exit_closes_again :
  forall lib device w k,
    let '(_, s, w1) := __enter__ lib (new device) w in
    exists h,
      _handle s = Some h
      /\ log (final (exec lib (repeat Exit k) s w1) w1)
         = log w1 ++ repeat (Native_close h) k
      /\ (0 < k -> released h (final (exec lib (repeat Exit k) s w1) w1))%nat.
Proof.
  intros lib device w k. unfold __enter__. simpl.
  destruct (pcap_open_live _ _ _ _ _ _) as [[h err] w1].
  exists h. split; [reflexivity|]. now apply exits_close.
Qed.

Lemma every_exit_closes_again_witness :
  let '(_, s, w1) :=
    __enter__ (Examples.good_lib []) (new "eth0") world0 in
  log (final (exec (Examples.good_lib []) [Exit; Exit] s w1) w1)
  = [Native_open_live "eth0" 65536 1 1000; Native_close 7; Native_close 7].
Proof.
  pose proof (every_exit_closes_again (Examples.good_lib []) "eth0" world0 2)
    as W.
  cbv in W. destruct W as [h [Hh [Hl _]]]. injection Hh as <-.
  cbv. exact Hl.
Defined.

End GuardFacts.

(** ** What the callback is given *)

Module CopyFacts.
Import Native WinPcap Notions Vocabulary LoopFacts DispatchFacts.

Lemma store_inside m addr bytes i :
  (i < List.length bytes)%nat ->
  store m addr bytes (addr + Z.of_nat i) = nth i bytes x00.
Proof.
  intros Hi. unfold store.
  replace ((addr <=? addr + Z.of_nat i)
           && (addr + Z.of_nat i <? addr + Z.of_nat (List.length bytes)))
    with true
    by (symmetry; apply andb_true_iff; split;
        [apply Z.leb_le | apply Z.ltb_lt]; lia).
  f_equal. lia.
Qed.

Lemma store_behind m addr bytes i :
  store m addr bytes (addr + Z.of_nat (List.length bytes) + Z.of_nat i)
  = m (addr + Z.of_nat (List.length bytes) + Z.of_nat i).
Proof.
  unfold store.
  replace (addr + Z.of_nat (List.length bytes) + Z.of_nat i
           <? addr + Z.of_nat (List.length bytes)) with false
    by (symmetry; apply Z.ltb_ge; lia).
  now rewrite andb_false_r.
Qed.

Lemma string_at_store m addr bytes :
  string_at (store m addr bytes) addr (Z.of_nat (List.length bytes)) = bytes.
Proof.
  unfold string_at. rewrite Nat2Z.id.
  apply (nth_ext _ _ x00 x00).
  - now rewrite length_map, length_seq.
  - intros n Hn. rewrite length_map, length_seq in Hn.
    rewrite (nth_indep _ x00 (store m addr bytes (addr + Z.of_nat 0)))
      by (now rewrite length_map, length_seq).
    rewrite (map_nth (fun i => store m addr bytes (addr + Z.of_nat i))).
    rewrite seq_nth by exact Hn. simpl. now apply store_inside.
Qed.

Lemma map_seq_from {A : Type} (f : nat -> A) (k n : nat) : forall start,
  map f (seq (k + start) n) = map (fun i => f (k + i)%nat) (seq start n).
Proof.
  induction n as [|n IH]; intros start; simpl; [reflexivity|].
  f_equal. rewrite <- IH. now rewrite Nat.add_succ_r.
Qed.

Lemma string_at_app m p a b :
  0 <= a -> 0 <= b ->
  string_at m p (a + b) = string_at m p a ++ string_at m (p + a) b.
Proof.
  intros Ha Hb. unfold string_at.
  rewrite Z2Nat.inj_add by assumption.
  rewrite seq_app, map_app. f_equal. simpl.
  rewrite <- (Nat.add_0_r (Z.to_nat a)) at 1.
  rewrite map_seq_from. apply map_ext.
  intros i. f_equal. rewrite Nat2Z.inj_add, Z2Nat.id by assumption. lia.
Qed.

Lemma string_at_behind m addr bytes n :
  string_at (store m addr bytes) (addr + Z.of_nat (List.length bytes)) n
  = string_at m (addr + Z.of_nat (List.length bytes)) n.
Proof. unfold string_at. apply map_ext. intros i. apply store_behind. Qed.

Lemma deliveries_whole frames : Forall whole frames ->
  forall m, deliveries m frames = map captured_pair frames.
Proof.
  induction 1 as [|[[hdr addr] captured] frames Hw _ IH]; intros m;
    simpl; [reflexivity|].
  unfold whole in Hw. simpl in Hw. rewrite Hw, string_at_store, IH.
  reflexivity.
Qed.

Lemma handler_callbacks s cb f param hdr ptr w :
  accepted cb f ->
  callbacks (log (snd (packet_handler (with_callback s cb) param hdr ptr w)))
  = callbacks (log w) ++ [(hdr, string_at (mem w) ptr (len hdr))].
Proof.
  intros [-> | ->]; unfold packet_handler; simpl;
    destruct (calls_stop _), (raises _), (_handle s); simpl;
    repeat rewrite callbacks_app; simpl; now repeat rewrite app_nil_r.
Qed.

(** X10: Frames captured whole reach the callback byte for byte: over a run
    with a positive limit the callback sees, in order, each header with
    exactly the bytes captured for it, also when the library reuses one
    buffer for every frame. *)
Theorem whole_frames_are_copied_exactly :
  forall s h err cb f limit frames rest w,
    accepted cb f ->
    never_stops f ->
    break_flag w = false ->
    0 < limit ->
    Z.of_nat (List.length frames) = limit ->
    Forall whole frames ->
    callbacks (log (snd (run (with_handle s h err) cb limit
                             (to_wire frames ++ rest) w)))
    = callbacks (log w) ++ map captured_pair frames.
Proof.
  intros s h err cb f limit frames rest w Hcb Hns Hb Hpos Hlen Hw.
  unfold run. simpl _handle. cbv iota.
  pose proof (loop_counts (with_handle s h err) cb f h limit rest Hcb Hns Hpos
                frames 0 (emit (Native_loop h limit) w) Hb) as L.
  simpl in L. specialize (L Hlen (Z.le_refl 0)). destruct L as [_ [_ L3]].
  destruct (pcap_loop _ _ _ _ _ _) as [[st unread] w'].
  simpl in *. rewrite L3, callbacks_app, (deliveries_whole _ Hw). simpl.
  now rewrite app_nil_r.
Qed.

Lemma whole_frames_are_copied_exactly_witness :
  callbacks (log (snd (run (with_handle (new "eth0") 7 "")
                           (PyFunction Examples.quiet) 2
                           (to_wire Scenarios.two_whole) world0)))
  = [(Scenarios.whole_hdr 1, [x01; x02]); (Scenarios.whole_hdr 2, [x03; x04])].
Proof.
  assert (Hcb : accepted (PyFunction Examples.quiet) Examples.quiet)
    by (left; reflexivity).
  assert (Hns : never_stops Examples.quiet) by (intros hdr data; reflexivity).
  assert (Hpos : 0 < 2) by lia.
  assert (Hw : Forall whole Scenarios.two_whole)
    by (repeat constructor).
  pose proof (whole_frames_are_copied_exactly (new "eth0") 7 ""
                (PyFunction Examples.quiet) Examples.quiet 2
                Scenarios.two_whole [] world0 Hcb Hns eq_refl Hpos eq_refl Hw)
    as W.
  rewrite app_nil_r in W. exact W.
Defined.

(** X11: For a frame whose header announces more bytes than were captured,
    the handler hands the callback the captured bytes followed by
    [len] minus that many bytes of whatever the memory behind the
    capture held before. *)
Theorem truncated_frame_reads_behind_the_capture :
  forall s cb f param hdr addr captured w,
    accepted cb f ->
    Z.of_nat (List.length captured) <= len hdr ->
    let arrived := set_mem (store (mem w) addr captured) w in
    callbacks (log (snd (packet_handler (with_callback s cb) param hdr addr
                                        arrived)))
    = callbacks (log w)
      ++ [(hdr, captured
                ++ string_at (mem w) (addr + Z.of_nat (List.length captured))
                             (len hdr - Z.of_nat (List.length captured)))].
Proof.
  intros s cb f param hdr addr captured w Hcb Hlen arrived.
  rewrite (handler_callbacks s cb f param hdr addr arrived Hcb).
  subst arrived. simpl. do 2 f_equal. f_equal.
  replace (len hdr) with (Z.of_nat (List.length captured)
                          + (len hdr - Z.of_nat (List.length captured)))
    at 1 by lia.
  rewrite string_at_app by lia.
  now rewrite string_at_store, string_at_behind.
Qed.

Lemma truncated_frame_reads_behind_the_capture_witness :
  callbacks
    (log (snd (packet_handler
                 (with_callback (new "eth0") (PyFunction Examples.quiet)) 0
                 Examples.truncated_hdr 100
                 (set_mem (store (mem Examples.stale_world) 100 [x01; x02])
                          Examples.stale_world))))
  = [(Examples.truncated_hdr, [x01; x02; xaa; xaa])].
Proof.
  assert (Hcb : accepted (PyFunction Examples.quiet) Examples.quiet)
    by (left; reflexivity).
  assert (Hlen : Z.of_nat (List.length [x01; x02])
                 <= len Examples.truncated_hdr) by (simpl; lia).
  exact (truncated_frame_reads_behind_the_capture (new "eth0")
           (PyFunction Examples.quiet) Examples.quiet 0
           Examples.truncated_hdr 100 [x01; x02] Examples.stale_world
           Hcb Hlen).
Defined.

End CopyFacts.

(** ** How a receive loop ends *)

Module InterruptFacts.
Import Native WinPcap Notions Vocabulary LoopFacts DispatchFacts.

Lemma count_open cnt delivered :
  cnt <= 0 \/ delivered < cnt ->
  (0 <? cnt) && (cnt <=? delivered) = false.
Proof.
  intros [H | H]; apply andb_false_iff;
    [left; apply Z.ltb_ge | right; apply Z.leb_gt]; lia.
Qed.

Lemma loop_prefix s cb f h cnt tail :
  accepted cb f -> never_stops f ->
  forall frames delivered w,
    break_flag w = false ->
    cnt <= 0 \/ delivered + Z.of_nat (List.length frames) <= cnt ->
    exists w',
      pcap_loop h (_callback_wrapper (with_callback s cb)) cnt delivered
                (to_wire frames ++ tail) w
      = pcap_loop h (_callback_wrapper (with_callback s cb)) cnt
                  (delivered + Z.of_nat (List.length frames)) tail w'
      /\ break_flag w' = false
      /\ callbacks (log w') = callbacks (log w) ++ deliveries (mem w) frames.
Proof.
  intros Hcb Hns frames.
  induction frames as [|[[hdr addr] captured] frames IH];
    intros delivered w Hb Hc.
  - exists w. simpl. rewrite Z.add_0_r, app_nil_r. now repeat split.
  - simpl List.length in *. simpl to_wire. simpl app.
    rewrite pcap_loop_eq, count_open, Hb by lia. cbv iota.
    destruct (wrapper_accepted s cb f NULL hdr addr
                (set_mem (store (mem w) addr captured) w) Hcb Hns)
      as [Hm [Hf Hk]].
    simpl in Hm, Hf, Hk.
    destruct (IH (delivered + 1)
                 (_callback_wrapper (with_callback s cb) NULL hdr addr
                    (set_mem (store (mem w) addr captured) w)))
      as [w' [E [Hb' Hk']]]; [now rewrite Hf | lia |].
    exists w'. split; [|split; [exact Hb'|]].
    + rewrite E. f_equal. lia.
    + rewrite Hk', Hk, Hm. simpl. now rewrite <- app_assoc.
Qed.





(** X14: A [stop()] made on an open session while no loop runs is not lost:
    the next [run], whatever its callback and limit, returns at once
    without reading the wire or invoking the callback, and lowers the
    break flag. *)
Theorem early_stop_cancels_next_run :
  forall s h err cb limit wire w,
    let '(_, s1, w1) := stop (with_handle s h err) w in
    let '(r, _, unread, w2) := run s1 cb limit wire w1 in
    r = Some (Return tt)
    /\ unread = wire
    /\ log w2 = log w ++ [Native_breakloop (Some h); Native_loop h limit]
    /\ break_flag w2 = false.
Proof.
  intros s h err cb limit wire w. unfold stop, run. simpl _handle. cbv iota.
  rewrite pcap_loop_eq.
  replace ((0 <? limit) && (limit <=? 0)) with false
    by (symmetry; destruct (0 <? limit) eqn:E; [|reflexivity];
        apply Z.ltb_lt in E; simpl; apply Z.leb_gt; lia).
  simpl. rewrite <- app_assoc. repeat split.
Qed.

Lemma wrapper_stops s h err cb f param hdr ptr w :
  accepted cb f -> always_stops f ->
  let w' := _callback_wrapper (with_callback (with_handle s h err) cb)
                              param hdr ptr w in
  break_flag w' = true
  /\ callbacks (log w')
     = callbacks (log w) ++ [(hdr, string_at (mem w) ptr (len hdr))].
Proof.
  intros [-> | ->] Hst; unfold _callback_wrapper, packet_handler; simpl;
    rewrite Hst; destruct (raises _); simpl;
    repeat rewrite callbacks_app; simpl;
    repeat rewrite app_nil_r; split; reflexivity.
Qed.

(** X15: When the callback itself calls [stop()] on the first frame, that
    frame is the only one it receives, whatever the limit: the loop
    ends, the later frames stay unread and [run] returns normally. *)
Theorem stop_from_callback_ends_run :
  forall s h err cb f limit hdr addr captured rest w,
    accepted cb f ->
    always_stops f ->
    break_flag w = false ->
    let '(r, _, unread, w') :=
      run (with_handle s h err) cb limit (Frame hdr addr captured :: rest) w in
    r = Some (Return tt)
    /\ unread = rest
    /\ List.length (callbacks (log w')) = S (List.length (callbacks (log w))).
Proof.
  intros s h err cb f limit hdr addr captured rest w Hcb Hst Hb.
  unfold run. simpl _handle. cbv iota.
  rewrite pcap_loop_eq.
  replace ((0 <? limit) && (limit <=? 0)) with false
    by (symmetry; destruct (0 <? limit) eqn:E; [|reflexivity];
        apply Z.ltb_lt in E; simpl; apply Z.leb_gt; lia).
  simpl break_flag. rewrite Hb.
  destruct (wrapper_stops s h err cb f NULL hdr addr
              (set_mem (store (mem (emit (Native_loop h limit) w)) addr
                              captured)
                       (emit (Native_loop h limit) w)) Hcb Hst)
    as [Hf Hk].
  rewrite pcap_loop_eq, Hf.
  assert (Hlen : List.length
                   (callbacks
                      (log (_callback_wrapper
                              (with_callback (with_handle s h err) cb) NULL
                              hdr addr
                              (set_mem
                                 (store (mem (emit (Native_loop h limit) w))
                                        addr captured)
                                 (emit (Native_loop h limit) w)))))
                 = S (List.length (callbacks (log w)))).
  { rewrite Hk. simpl. rewrite callbacks_app. simpl.
    rewrite app_nil_r, length_app. simpl. lia. }
  destruct (Z.eq_dec limit 1) as [-> | Hne].
  - simpl. repeat split; assumption.
  - replace ((0 <? limit) && (limit <=? 0 + 1)) with false
      by (symmetry; apply andb_false_iff;
          destruct (Z_lt_le_dec 0 limit);
          [right; apply Z.leb_gt | left; apply Z.ltb_ge]; lia).
    repeat split. exact Hlen.
Qed.

Lemma stop_from_callback_ends_run_witness :
  let '(r, _, unread, w') :=
    run (with_handle (new "eth0") 7 "") (PyFunction Scenarios.stopper) 0
        Examples.five_frames world0 in
  r = Some (Return tt)
  /\ List.length unread = 4%nat
  /\ callbacks (log w') = [(Examples.hdr_of 1, [x01])]
  /\ break_flag w' = false.
Proof.
  assert (Hcb : accepted (PyFunction Scenarios.stopper) Scenarios.stopper)
    by (left; reflexivity).
  assert (Hst : always_stops Scenarios.stopper)
    by (intros hdr data; reflexivity).
  pose proof (stop_from_callback_ends_run (new "eth0") 7 ""
                (PyFunction Scenarios.stopper) Scenarios.stopper 0
                (Examples.hdr_of 1) 100 [x01]
                (tl Examples.five_frames) world0 Hcb Hst eq_refl) as W.
  cbv in W. cbv. destruct W as [W1 _].
  repeat split; assumption.
Defined.

End InterruptFacts.

(** ** The helpers of [WinPcapUtils] *)

Module UtilsFacts.
Import Native WinPcap WinPcapUtils Notions Vocabulary LoopFacts SessionFacts.
Import DispatchFacts TextFacts DirectoryFacts InterruptFacts.

Lemma wrapper_log s param hdr ptr w :
  exists tail,
    log (_callback_wrapper s param hdr ptr w) = log w ++ tail
    /\ Forall loop_event tail.
Proof.
  unfold _callback_wrapper, packet_handler.
  destruct (negb _).
  - exists [Ignored_exception AssertionError]. split; [reflexivity|].
    repeat constructor.
  - destruct (_callback s) as [|f|f|f]; simpl.
    + exists [Ignored_exception TypeError]. split; [reflexivity|].
      repeat constructor.
    + destruct (calls_stop _), (raises _), (_handle s); simpl;
        repeat rewrite <- app_assoc; simpl;
        eexists; (split; [reflexivity | repeat constructor]).
    + destruct (calls_stop _), (raises _), (_handle s); simpl;
        repeat rewrite <- app_assoc; simpl;
        eexists; (split; [reflexivity | repeat constructor]).
    + destruct (calls_stop _), (raises _), (_handle s); simpl;
        repeat rewrite <- app_assoc; simpl;
        eexists; (split; [reflexivity | repeat constructor]).
Qed.

Lemma loop_log s h cnt : forall wire delivered w,
  exists tail,
    log (snd (pcap_loop h (_callback_wrapper s) cnt delivered wire w))
    = log w ++ tail
    /\ Forall loop_event tail.
Proof.
  assert (Hnil : forall w : World, exists tail,
             log w = log w ++ tail /\ Forall loop_event tail).
  { intros w. exists []. split; [now rewrite app_nil_r | constructor]. }
  induction wire as [|ev wire IH]; intros delivered w; rewrite pcap_loop_eq;
    destruct ((0 <? cnt) && (cnt <=? delivered)); try exact (Hnil w);
    destruct (break_flag w); try exact (Hnil w).
  destruct ev as [hdr addr captured| |]; try exact (Hnil w).
  - destruct (wrapper_log s NULL hdr addr
                (set_mem (store (mem w) addr captured) w)) as [t1 [E1 F1]].
    destruct (IH (delivered + 1)
                 (_callback_wrapper s NULL hdr addr
                    (set_mem (store (mem w) addr captured) w)))
      as [t2 [E2 F2]].
    exists (t1 ++ t2). split.
    + rewrite E2, E1. simpl. now rewrite app_assoc.
    + apply Forall_app. now split.
  - destruct (IH delivered (pcap_breakloop (Some h) w)) as [t2 [E2 F2]].
    exists (Native_breakloop (Some h) :: t2). split.
    + rewrite E2. simpl. now rewrite <- app_assoc.
    + constructor; [exact I | exact F2].
Qed.

(** What [run] does to the world on a session that holds handle [h]. *)
Lemma run_shape s h err cb limit wire w :
  let '(r, s', _, w') := run (with_handle s h err) cb limit wire w in
  _handle s' = Some h
  /\ (r = None \/ r = Some (Return tt))
  /\ open_handles w' = open_handles w
  /\ exists tail,
      log w' = log w ++ Native_loop h limit :: tail /\ Forall loop_event tail.
Proof.
  unfold run. simpl _handle. cbv iota.
  pose proof (loop_log (with_callback (with_handle s h err) cb) h limit wire 0
                (emit (Native_loop h limit) w)) as [tail [E F]].
  pose proof (pcap_loop_handles h
                (_callback_wrapper (with_callback (with_handle s h err) cb))
                limit (wrapper_handles _) wire 0
                (emit (Native_loop h limit) w)) as Hh.
  destruct (pcap_loop _ _ _ _ _ _) as [[st unread] w']. simpl in *.
  split; [reflexivity|]. split; [destruct st; auto|]. split; [exact Hh|].
  exists tail. split; [|exact F]. rewrite E. now rewrite <- app_assoc.
Qed.

Lemma capture_scope :
  forall lib device callback wire w,
    let h := fst (open_live lib device 65536 1 1000) in
    let '(r, _, w') := capture_on_device_name lib device callback wire w in
    exists tail,
      Forall loop_event tail
      /\ match r with
         | None =>
             log w' = log w ++ Native_open_live device 65536 1 1000
                            :: Native_loop h 0 :: tail
         | Some r' =>
             r' = Return tt
             /\ log w' = log w ++ Native_open_live device 65536 1 1000
                               :: Native_loop h 0 :: tail ++ [Native_close h]
             /\ released h w'
         end.
Proof.
  intros lib device callback wire w h. subst h.
  unfold capture_on_device_name, with_capture, __enter__, pcap_open_live.
  simpl. destruct (open_live lib device 65536 1 1000) as [h err]. simpl.
  match goal with
  | |- context [run ?s callback 0 wire ?w1] =>
      pose proof (run_shape (new device) h err callback 0 wire w1) as R;
      change s with (with_handle (new device) h err)
  end.
  destruct (run _ _ _ _ _) as [[[r s'] unread] w2].
  destruct R as [Hs [Hr [_ [tail [E F]]]]].
  assert (El : log (if h =? NULL
                    then emit (Native_open_live device 65536 1 1000) w
                    else set_handles (h :: open_handles w)
                           (emit (Native_open_live device 65536 1 1000) w))
               = log w ++ [Native_open_live device 65536 1 1000])
    by (destruct (h =? NULL); reflexivity).
  rewrite El, <- app_assoc in E. simpl in E.
  destruct Hr as [-> | ->].
  - exists tail. split; [exact F | exact E].
  - unfold __exit__. rewrite Hs. simpl.
    exists tail. split; [exact F|]. split; [reflexivity|]. split.
    + rewrite E, <- app_assoc. reflexivity.
    + unfold released. simpl. apply released_remove.
Qed.

(** X17: [capture_on_device_name] opens the named device with the default
    configuration and enters the native loop with no packet limit.
    While the loop has not returned the handle stays open; once it
    returns the helper returns normally and its last act is to close
    the handle.  Between the loop call and the close the log holds only
    what the loop did. *)
Theorem capture_on_device_name_closes_on_return :
  forall lib device callback wire w,
    let h := fst (open_live lib device 65536 1 1000) in
    let '(r, _, w') := capture_on_device_name lib device callback wire w in
    exists tail,
      Forall loop_event tail
      /\ match r with
         | None =>
             log w' = log w ++ Native_open_live device 65536 1 1000
                            :: Native_loop h 0 :: tail
         | Some r' =>
             r' = Return tt
             /\ log w' = log w ++ Native_open_live device 65536 1 1000
                               :: Native_loop h 0 :: tail ++ [Native_close h]
             /\ released h w'
         end.
Proof. exact capture_scope. Qed.

Lemma find_world os lib glob w x :
  fst (WinPcapDevices.get_matching_device os lib glob w) = Return x ->
  log (snd (WinPcapDevices.get_matching_device os lib glob w))
  = log w ++ [Native_findalldevs; Native_freealldevs].
Proof.
  unfold WinPcapDevices.get_matching_device.
  destruct (findalldevs lib) as [[status devs] err] eqn:Hf.
  destruct (Z.eq_dec status (-1)) as [-> | Hs].
  - rewrite (list_devices_failed _ _ _ _ Hf). discriminate.
  - rewrite (list_devices_ok _ _ _ _ _ Hf Hs).
    destruct (WinPcapDevices.fill [] devs); simpl; intros _;
      now rewrite <- app_assoc.
Qed.

(** X19: Without a matching device, [capture_on] and [send_packet] return
    normally after the enumeration: no session is opened, nothing is
    sent and the wire is not read. *)
Theorem helpers_do_nothing_without_a_match :
  forall os lib pattern buf callback limit wire w,
    fst (WinPcapDevices.get_matching_device os lib pattern w)
    = Return (None, None) ->
    (let '(r, unread, w') := capture_on os lib pattern callback wire w in
     r = Some (Return tt) /\ unread = wire
     /\ log w' = log w ++ [Native_findalldevs; Native_freealldevs])
    /\ (let '(r, unread, w') :=
          send_packet os lib pattern buf callback limit wire w in
        r = Some (Return tt) /\ unread = wire
        /\ log w' = log w ++ [Native_findalldevs; Native_freealldevs]).
Proof.
  intros os lib pattern buf callback limit wire w Hm.
  pose proof (find_world os lib pattern w _ Hm) as Hl.
  unfold capture_on, send_packet.
  destruct (WinPcapDevices.get_matching_device os lib pattern w) as [found w1].
  simpl in Hm, Hl. subst found. repeat split; exact Hl.
Qed.

Lemma helpers_do_nothing_without_a_match_witness :
  let '(r, unread, w') :=
    send_packet Fnmatch.Posix (Examples.good_lib Examples.three_devices)
                (text_of "NoSuch*") [x01] (PyFunction Examples.quiet) 10
                Examples.five_frames world0 in
  r = Some (Return tt) /\ unread = Examples.five_frames
  /\ log w' = [Native_findalldevs; Native_freealldevs].
Proof.
  exact (proj2 (helpers_do_nothing_without_a_match Fnmatch.Posix
                  (Examples.good_lib Examples.three_devices)
                  (text_of "NoSuch*") [x01]
                  (PyFunction Examples.quiet) 10 Examples.five_frames world0
                  eq_refl)).
Defined.

(** X20: When the enumeration fails, [capture_on] and [send_packet] pass
    the [PcapFindDevicesException] of the device directory on to their
    caller, with the message it was raised with, and open no
    session. *)
Theorem helpers_pass_on_enumeration_failure :
  forall os lib pattern buf callback limit wire w devs err,
    findalldevs lib = (-1, devs, err) ->
    let failure :=
      PcapFindDevicesException
        ("Error in WinPcapDevices: "
         ++ PyBytes.repr (PyBytes.value err) ++ newline)%string in
    capture_on os lib pattern callback wire w
    = (Some (Raise failure), wire, emit Native_findalldevs w)
    /\ send_packet os lib pattern buf callback limit wire w
       = (Some (Raise failure), wire, emit Native_findalldevs w).
Proof.
  intros os lib pattern buf callback limit wire w devs err Hf failure.
  unfold capture_on, send_packet, WinPcapDevices.get_matching_device.
  rewrite (list_devices_failed _ _ _ _ Hf). split; reflexivity.
Qed.

Lemma helpers_pass_on_enumeration_failure_witness :
  fst (fst (capture_on Fnmatch.Posix Scenarios.blind_lib (text_of "*")
                       (PyFunction Examples.quiet) [] world0))
  = Some (Raise (PcapFindDevicesException
                   ("Error in WinPcapDevices: b'no adapters'"
                    ++ newline)%string)).
Proof.
  pose proof (helpers_pass_on_enumeration_failure Fnmatch.Posix
                Scenarios.blind_lib (text_of "*") []
                (PyFunction Examples.quiet) 0 []
                world0 [] "no adapters" eq_refl) as W.
  destruct W as [W _]. rewrite W. reflexivity.
Defined.

Lemma decoded_names_in k devs :
  In k (decoded_names devs) ->
  exists d, In d devs /\ Utf8.decode (name d) = Some k.
Proof.
  induction devs as [|d devs IH]; simpl; [intros []|].
  destruct (Utf8.decode (name d)) as [k0|] eqn:D.
  - intros [<- | Hin].
    + exists d. split; [now left | exact D].
    + destruct (IH Hin) as [x [Hx Dx]]. exists x. split; [now right | exact Dx].
  - intros Hin. destruct (IH Hin) as [x [Hx Dx]].
    exists x. split; [now right | exact Dx].
Qed.

(** A name that the find operation returns is the decoded name of a
    device, so it encodes, and to the bytes of that name. *)
Lemma found_name_encodes os lib glob w nm descr :
  fst (WinPcapDevices.get_matching_device os lib glob w)
  = Return (Some nm, descr) ->
  exists device, Utf8.encode nm = Some device.
Proof.
  unfold WinPcapDevices.get_matching_device.
  destruct (findalldevs lib) as [[status devs] err] eqn:Hf.
  destruct (Z.eq_dec status (-1)) as [-> | Hs].
  - rewrite (list_devices_failed _ _ _ _ Hf). discriminate.
  - rewrite (list_devices_ok _ _ _ _ _ Hf Hs).
    destruct (WinPcapDevices.fill [] devs) as [d|e] eqn:Hfill;
      simpl; [|discriminate].
    intros H. injection H as H.
    pose proof (first_item_sound os glob d) as S. rewrite H in S.
    destruct descr as [v|]; [|destruct S].
    destruct S as [Hin _].
    assert (Hk : In nm (map fst d))
      by (apply in_map_iff; exists (nm, v); now split).
    apply (fill_keys nm devs [] d Hfill) in Hk.
    destruct Hk as [[] | Hk].
    destruct (decoded_names_in nm devs Hk) as [x [_ Dx]].
    exists (name x). now apply encode_decode.
Qed.

(** X18: With a matching device, [capture_on] lists the devices, frees the
    list, opens the device found, under the UTF-8 encoding of its name,
    with the default configuration and enters the native loop with no
    packet limit; when the loop returns the helper returns normally and
    its last act is to close the handle. *)
Theorem capture_on_opens_the_match :
  forall os lib pattern callback wire w nm descr,
    fst (WinPcapDevices.get_matching_device os lib pattern w)
    = Return (Some nm, Some descr) ->
    exists device,
      Utf8.encode nm = Some device
      /\ let h := fst (open_live lib device 65536 1 1000) in
         let '(r, _, w') := capture_on os lib pattern callback wire w in
         exists tail,
           Forall loop_event tail
           /\ match r with
              | None =>
                  log w' = log w ++ Native_findalldevs :: Native_freealldevs
                                 :: Native_open_live device 65536 1 1000
                                 :: Native_loop h 0 :: tail
              | Some r' =>
                  r' = Return tt
                  /\ log w' = log w ++ Native_findalldevs
                                    :: Native_freealldevs
                                    :: Native_open_live device 65536 1 1000
                                    :: Native_loop h 0
                                    :: tail ++ [Native_close h]
                  /\ released h w'
              end.
Proof.
  intros os lib pattern callback wire w nm descr Hm.
  destruct (found_name_encodes os lib pattern w nm _ Hm) as [device He].
  exists device. split; [exact He|]. intros h.
  pose proof (find_world os lib pattern w _ Hm) as Hl.
  unfold capture_on.
  destruct (WinPcapDevices.get_matching_device os lib pattern w) as [found w1].
  simpl in Hm, Hl. subst found. unfold with_named_capture. rewrite He.
  pose proof (capture_scope lib device callback wire w1) as S.
  unfold capture_on_device_name in S. simpl in S. fold h in S.
  destruct (with_capture _ _ _ _ _) as [[r unread] w'].
  destruct S as [tail [F S]]. exists tail. split; [exact F|].
  destruct r as [r'|].
  - destruct S as [S1 [S2 S3]]. split; [exact S1|]. split; [|exact S3].
    rewrite S2, Hl, <- app_assoc. reflexivity.
  - rewrite S, Hl, <- app_assoc. reflexivity.
Qed.

Lemma capture_on_opens_the_match_witness :
  let '(r, _, w') :=
    capture_on Fnmatch.Posix (Examples.good_lib Examples.three_devices)
               (text_of "Wi-Fi*") (PyFunction Examples.quiet)
               [Frame (Examples.hdr_of 1) 100 [x01]; DeviceError] world0 in
  r = Some (Return tt)
  /\ log w'
     = [Native_findalldevs; Native_freealldevs;
        Native_open_live "wlan0" 65536 1 1000; Native_loop 7 0;
        User_callback 0 (Examples.hdr_of 1) [x01]; Native_close 7].
Proof.
  pose proof (capture_on_opens_the_match Fnmatch.Posix
                (Examples.good_lib Examples.three_devices) (text_of "Wi-Fi*")
                (PyFunction Examples.quiet)
                [Frame (Examples.hdr_of 1) 100 [x01]; DeviceError] world0
                (text_of "wlan0") (text_of "Wi-Fi 6") eq_refl) as W.
  destruct W as [device [He W]]. cbv in He. injection He as <-.
  cbv in W. destruct W as [tail [_ [W1 _]]].
  cbv. split; [exact (f_equal Some W1) | reflexivity].
Defined.

Lemma find_keeps os lib glob w x :
  fst (WinPcapDevices.get_matching_device os lib glob w) = Return x ->
  mem (snd (WinPcapDevices.get_matching_device os lib glob w)) = mem w
  /\ break_flag (snd (WinPcapDevices.get_matching_device os lib glob w))
     = break_flag w.
Proof.
  unfold WinPcapDevices.get_matching_device.
  destruct (findalldevs lib) as [[status devs] err] eqn:Hf.
  destruct (Z.eq_dec status (-1)) as [-> | Hs].
  - rewrite (list_devices_failed _ _ _ _ Hf). discriminate.
  - rewrite (list_devices_ok _ _ _ _ _ Hf Hs).
    destruct (WinPcapDevices.fill [] devs); simpl; now split.
Qed.

Lemma opened_world lib nm w :
  let '(r, s, w1) := __enter__ lib (new nm) w in
  let '(h, err) := open_live lib nm 65536 1 1000 in
  r = Return tt
  /\ s = with_handle (new nm) h err
  /\ log w1 = log w ++ [Native_open_live nm 65536 1 1000]
  /\ mem w1 = mem w
  /\ break_flag w1 = break_flag w.
Proof.
  unfold __enter__, pcap_open_live. simpl.
  destruct (open_live lib nm 65536 1 1000) as [h err].
  destruct (h =? NULL); repeat split.
Qed.

(** X21: With a matching device and no callback, [send_packet] opens the
    device found, under the UTF-8 encoding of its name, hands the
    buffer and its length to the native send-packet call once, and
    closes the handle; it returns normally whatever status the send
    reported, and it does not read the wire. *)
Theorem send_packet_sends_once_and_closes :
  forall os lib pattern buf limit wire w nm descr,
    fst (WinPcapDevices.get_matching_device os lib pattern w)
    = Return (Some nm, Some descr) ->
    exists device,
      Utf8.encode nm = Some device
      /\ let h := fst (open_live lib device 65536 1 1000) in
         let '(r, unread, w') :=
           send_packet os lib pattern buf PyNone limit wire w in
         r = Some (Return tt)
         /\ unread = wire
         /\ log w' = log w ++ [Native_findalldevs; Native_freealldevs;
                               Native_open_live device 65536 1 1000;
                               Native_sendpacket h buf
                                 (Z.of_nat (List.length buf));
                               Native_close h]
         /\ released h w'.
Proof.
  intros os lib pattern buf limit wire w nm descr Hm.
  destruct (found_name_encodes os lib pattern w nm _ Hm) as [device He].
  exists device. split; [exact He|]. intros h.
  pose proof (find_world os lib pattern w _ Hm) as Hl.
  unfold send_packet.
  destruct (WinPcapDevices.get_matching_device os lib pattern w) as [found w1].
  simpl in Hm, Hl. subst found. unfold with_named_capture. rewrite He.
  unfold with_capture.
  pose proof (opened_world lib device w1) as O. subst h.
  destruct (__enter__ lib (new device) w1) as [[r s] w2].
  destruct (open_live lib device 65536 1 1000) as [h err].
  destruct O as [-> [-> [El _]]]. simpl.
  repeat split.
  - rewrite El, Hl. repeat rewrite <- app_assoc. reflexivity.
  - unfold released. simpl. apply released_remove.
Qed.

Lemma send_packet_sends_once_and_closes_witness :
  let '(r, unread, w') :=
    send_packet Fnmatch.Posix Examples.failing_send_lib
                (text_of "*Ethernet*")
                [x01; x02] PyNone 10 Examples.five_frames world0 in
  r = Some (Return tt)
  /\ unread = Examples.five_frames
  /\ log w' = [Native_findalldevs; Native_freealldevs;
               Native_open_live "eth0" 65536 1 1000;
               Native_sendpacket 7 [x01; x02] 2; Native_close 7].
Proof.
  pose proof (send_packet_sends_once_and_closes Fnmatch.Posix
                Examples.failing_send_lib (text_of "*Ethernet*")
                [x01; x02] 10
                Examples.five_frames world0 (text_of "eth0")
                (text_of "Intel Ethernet") eq_refl)
    as W.
  destruct W as [device [He W]]. cbv in He. injection He as <-.
  cbv in W. cbv. destruct W as [W1 [W2 [W3 _]]]. repeat split; assumption.
Defined.

(** X22: With a matching device and a callback, [send_packet] sends first
    and listens afterwards: the device found is opened under the UTF-8
    encoding of its name, the send-packet call precedes the loop call,
    the callback then receives [limit] frames in arrival order, and the
    handle is closed last. *)
Theorem send_packet_sends_then_listens :
  forall os lib pattern buf cb f limit frames rest w nm descr,
    fst (WinPcapDevices.get_matching_device os lib pattern w)
    = Return (Some nm, Some descr) ->
    accepted cb f ->
    never_stops f ->
    break_flag w = false ->
    0 < limit ->
    Z.of_nat (List.length frames) = limit ->
    exists device,
      Utf8.encode nm = Some device
      /\ let h := fst (open_live lib device 65536 1 1000) in
         let '(r, unread, w') :=
           send_packet os lib pattern buf cb limit (to_wire frames ++ rest) w
         in
         r = Some (Return tt)
         /\ unread = rest
         /\ callbacks (log w')
            = callbacks (log w) ++ deliveries (mem w) frames
         /\ exists tail,
             Forall loop_event tail
             /\ log w' = log w ++ Native_findalldevs :: Native_freealldevs
                               :: Native_open_live device 65536 1 1000
                               :: Native_sendpacket h buf
                                    (Z.of_nat (List.length buf))
                               :: Native_loop h limit
                               :: tail ++ [Native_close h].
Proof.
  intros os lib pattern buf cb f limit frames rest w nm descr Hm Hcb Hns Hb
         Hpos Hlen.
  destruct (found_name_encodes os lib pattern w nm _ Hm) as [device He].
  exists device. split; [exact He|]. intros h.
  pose proof (find_world os lib pattern w _ Hm) as Hl.
  pose proof (find_keeps os lib pattern w _ Hm) as [Hmem Hbrk].
  unfold send_packet.
  destruct (WinPcapDevices.get_matching_device os lib pattern w) as [found w1].
  simpl in Hm, Hl, Hmem, Hbrk. subst found.
  unfold with_named_capture. rewrite He. unfold with_capture.
  pose proof (opened_world lib device w1) as O. subst h.
  destruct (__enter__ lib (new device) w1) as [[r s] w2].
  destruct (open_live lib device 65536 1 1000) as [h err].
  destruct O as [-> [-> [El [Em Eb]]]]. simpl fst.
  assert (Hn : is_none cb = false) by (destruct Hcb as [-> | ->]; reflexivity).
  unfold send, pcap_sendpacket, run. simpl. rewrite Hn.
  match goal with
  | |- context [pcap_loop h (_callback_wrapper ?c) limit 0 ?wi ?w3] =>
      assert (Hb3 : break_flag w3 = false) by (simpl; congruence);
      pose proof (loop_counts (with_handle (new device) h err) cb f h limit
                    rest Hcb Hns Hpos frames 0 w3 Hb3) as L;
      pose proof (loop_log c h limit wi 0 w3) as [tail [E F]];
      change c with (with_callback (with_handle (new device) h err) cb) in *
  end.
  cbv zeta in L. rewrite Z.add_0_l in L. specialize (L Hlen (Z.le_refl 0)).
  destruct (pcap_loop _ _ _ _ _ _) as [[st unread] w4].
  simpl in L, E. destruct L as [-> [-> L3]]. simpl.
  split; [reflexivity|]. split; [reflexivity|]. split.
  - rewrite callbacks_app, L3.
    rewrite Em, Hmem, El, Hl. repeat rewrite callbacks_app. simpl.
    now repeat rewrite app_nil_r.
  - exists tail. split; [exact F|].
    rewrite E. rewrite El, Hl.
    repeat rewrite <- app_assoc. reflexivity.
Qed.

Lemma send_packet_sends_then_listens_witness :
  let '(r, unread, w') :=
    send_packet Fnmatch.Posix (Examples.good_lib Examples.three_devices)
                (text_of "*Ethernet*") [x09] (PyFunction Examples.quiet) 2
                (to_wire Scenarios.two_whole ++ [DeviceError]) world0 in
  r = Some (Return tt)
  /\ unread = [DeviceError]
  /\ callbacks (log w')
     = [(Scenarios.whole_hdr 1, [x01; x02]); (Scenarios.whole_hdr 2, [x03; x04])].
Proof.
  assert (Hcb : accepted (PyFunction Examples.quiet) Examples.quiet)
    by (left; reflexivity).
  assert (Hns : never_stops Examples.quiet) by (intros hdr data; reflexivity).
  assert (Hpos : 0 < 2) by lia.
  pose proof (send_packet_sends_then_listens Fnmatch.Posix
                (Examples.good_lib Examples.three_devices)
                (text_of "*Ethernet*") [x09]
                (PyFunction Examples.quiet) Examples.quiet 2
                Scenarios.two_whole [DeviceError] world0 (text_of "eth0")
                (text_of "Intel Ethernet") eq_refl Hcb Hns eq_refl Hpos
                eq_refl) as W.
  destruct W as [device [He W]]. cbv in He. injection He as <-.
  cbv in W. cbv. destruct W as [W1 [W2 [W3 _]]]. repeat split; assumption.
Defined.

End UtilsFacts.

(** ** Running again on the same handle *)

Module ResumeFacts.
Import Native WinPcap Notions Vocabulary LoopFacts DispatchFacts.
Import CopyFacts InterruptFacts.

Lemma run_counts s h err cb f limit frames rest w :
  accepted cb f -> never_stops f -> break_flag w = false ->
  0 < limit -> Z.of_nat (List.length frames) = limit ->
  let '(r, s', unread, w') :=
    run (with_handle s h err) cb limit (to_wire frames ++ rest) w in
  r = Some (Return tt)
  /\ s' = with_callback (with_handle s h err) cb
  /\ unread = rest
  /\ break_flag w' = false
  /\ callbacks (log w') = callbacks (log w) ++ deliveries (mem w) frames.
Proof.
  intros Hcb Hns Hb Hpos Hlen. unfold run. simpl _handle. cbv iota.
  destruct (loop_prefix (with_handle s h err) cb f h limit rest Hcb Hns
              frames 0 (emit (Native_loop h limit) w) Hb)
    as [w1 [E [Hb1 Hk]]]; [lia|].
  rewrite E, pcap_loop_eq.
  replace ((0 <? limit) && (limit <=? 0 + Z.of_nat (List.length frames)))
    with true
    by (symmetry; apply andb_true_iff; split;
        [apply Z.ltb_lt | apply Z.leb_le]; lia).
  cbv iota beta.
  split; [reflexivity|]. split; [reflexivity|]. split; [reflexivity|].
  split; [exact Hb1|].
  rewrite Hk. simpl. rewrite callbacks_app. simpl. now rewrite app_nil_r.
Qed.

(** X16: A second [run] on the same session takes up the wire where the
    first one left it: after a run limited to the first batch of frames
    and a run limited to the second batch, possibly with another
    callback, the callbacks have received every frame of both batches
    once, in arrival order, each with exactly its captured bytes. *)
Theorem second_run_takes_up_the_wire :
  forall s h err cb1 f1 cb2 f2 first second rest w,
    accepted cb1 f1 -> never_stops f1 ->
    accepted cb2 f2 -> never_stops f2 ->
    break_flag w = false ->
    first <> [] -> second <> [] ->
    Forall whole first -> Forall whole second ->
    let '(_, s1, unread, w1) :=
      run (with_handle s h err) cb1 (Z.of_nat (List.length first))
          (to_wire first ++ to_wire second ++ rest) w in
    let '(r, _, unread', w2) :=
      run s1 cb2 (Z.of_nat (List.length second)) unread w1 in
    r = Some (Return tt)
    /\ unread' = rest
    /\ callbacks (log w2)
       = callbacks (log w) ++ map captured_pair (first ++ second).
Proof.
  intros s h err cb1 f1 cb2 f2 first second rest w
         Hcb1 Hns1 Hcb2 Hns2 Hb Hn1 Hn2 Hw1 Hw2.
  assert (Hp1 : 0 < Z.of_nat (List.length first))
    by (destruct first; [congruence | simpl; lia]).
  assert (Hp2 : 0 < Z.of_nat (List.length second))
    by (destruct second; [congruence | simpl; lia]).
  pose proof (run_counts s h err cb1 f1 _ first (to_wire second ++ rest) w
                Hcb1 Hns1 Hb Hp1 eq_refl) as R1.
  destruct (run (with_handle s h err) cb1 _ _ w) as [[[r1 s1] unread] w1].
  destruct R1 as [_ [-> [-> [Hb1 Hk1]]]].
  pose proof (run_counts (with_callback s cb1) h err cb2 f2 _ second rest w1
                Hcb2 Hns2 Hb1 Hp2 eq_refl) as R2.
  change (with_handle (with_callback s cb1) h err)
    with (with_callback (with_handle s h err) cb1) in R2.
  destruct (run (with_callback (with_handle s h err) cb1) cb2 _ _ w1)
    as [[[r2 s2] unread'] w2].
  destruct R2 as [-> [_ [-> [_ Hk2]]]].
  repeat split.
  rewrite Hk2, Hk1, (deliveries_whole _ Hw1), (deliveries_whole _ Hw2).
  now rewrite map_app, <- app_assoc.
Qed.

Lemma second_run_takes_up_the_wire_witness :
  let '(_, s1, unread, w1) :=
    run (with_handle (new "eth0") 7 "") (PyFunction Examples.quiet) 2
        (to_wire Scenarios.two_whole ++ to_wire Scenarios.two_whole ++ [])
        world0 in
  let '(r, _, unread', w2) :=
    run s1 (PyMethod Scenarios.thrower) 2 unread w1 in
  r = Some (Return tt)
  /\ unread' = []
  /\ map snd (callbacks (log w2))
     = [[x01; x02]; [x03; x04]; [x01; x02]; [x03; x04]].
Proof.
  assert (Hcb1 : accepted (PyFunction Examples.quiet) Examples.quiet)
    by (left; reflexivity).
  assert (Hcb2 : accepted (PyMethod Scenarios.thrower) Scenarios.thrower)
    by (right; reflexivity).
  assert (Hns1 : never_stops Examples.quiet) by (intros hdr data; reflexivity).
  assert (Hns2 : never_stops Scenarios.thrower)
    by (intros hdr data; reflexivity).
  assert (Hne : Scenarios.two_whole <> []) by discriminate.
  assert (Hw : Forall whole Scenarios.two_whole) by (repeat constructor).
  pose proof (second_run_takes_up_the_wire (new "eth0") 7 ""
                (PyFunction Examples.quiet) Examples.quiet
                (PyMethod Scenarios.thrower) Scenarios.thrower
                Scenarios.two_whole Scenarios.two_whole [] world0
                Hcb1 Hns1 Hcb2 Hns2 eq_refl Hne Hne Hw Hw) as W.
  cbv in W. cbv. destruct W as [W1 [W2 _]].
  split; [exact W1|]. split; [exact W2 | reflexivity].
Defined.

End ResumeFacts.
